(** * Search API: cache-aside nearby search over a fan-out provider client

    A shallow embedding of [services/search-api/app]:
    - [cache/base.py]      : [generate_cache_key]
    - [cache/postgres.py]  : [PostgresCache]
    - [cache/redis.py]     : [RedisCache]
    - [google_places.py]   : [GooglePlacesClient.search_nearby], [parse_google_place]
    - [db.py]              : [upsert_restaurants], [get_restaurants_by_place_ids],
                             [get_stale_restaurants], [check_db_connection]
    - [main.py]            : [search_nearby_restaurants], [search_nearby_get],
                             [get_restaurant_by_place_id], [health_check],
                             [admin_cleanup_cache], [admin_clear_all_cache]

    Python exceptions are an explicit [outcome]; the database tables, the
    remote key-value server and the clock are fields of an explicit [World]
    threaded through a small state-and-exception monad. *)

From Stdlib Require Import ZArith QArith Lia List String Ascii DecimalString.
From stdpp Require Import base option list gmap strings sorting.

Set Warnings "-clear-no-such-hyp".

Local Open Scope string_scope.
Local Open Scope Z_scope.

(** ** Exceptions and outcomes *)

Inductive exn : Type :=
  | TypeError            (* len() of a value that has no length *)
  | AttributeError       (* .get on a value that is not a dict *)
  | ValueError           (* get_cache: redis selected without a URL *)
  | RedisError           (* connection failure or error reply of the Redis server *)
  | DBAPIError           (* a SQL statement or its commit failed: SQLAlchemy's
                            DBAPIError or a subclass of it, not told apart *)
  | HTTPException (status_code : Z) (detail : string).

(** [type(e).__name__]; for a database error the name of the subclass
    that was raised, for which the model has the one name of the family. *)
Definition exn_name (e : exn) : string :=
  match e with
  | TypeError => "TypeError"
  | AttributeError => "AttributeError"
  | ValueError => "ValueError"
  | RedisError => "RedisError"
  | DBAPIError => "DBAPIError"
  | HTTPException _ _ => "HTTPException"
  end.

Inductive outcome (A : Type) : Type :=
  | Return (a : A)
  | Raise (e : exn).
Arguments Return {A} a.
Arguments Raise {A} e.

Definition obind {A B} (m : outcome A) (k : A → outcome B) : outcome B :=
  match m with
  | Return a => k a
  | Raise e => Raise e
  end.

(** [[f x for x in l]]: the first element on which [f] raises ends the
    comprehension with that exception. *)
Fixpoint omapM {A B} (f : A → outcome B) (l : list A) : outcome (list B) :=
  match l with
  | [] => Return []
  | x :: l' => obind (f x) (λ y, obind (omapM f l') (λ ys, Return (y :: ys)))
  end.

(** ** Coordinates

    A latitude or longitude is a Python float.  A finite double is a dyadic
    rational, so it is represented by its exact value in [Q]; negative zero
    is kept apart since [repr] prints it differently.  The request model
    bounds a latitude to [-90, 90] and a longitude to [-180, 180], which rules
    out NaN and the infinities. *)

Inductive coord : Type :=
  | NegZero
  | Finite (q : Q).

(** ** The provider payload as JSON ([parse_google_place], [google_places.py])

    A place is the JSON object the provider sent.  [parse_google_place] is
    followed member by member, with the exceptions its projections can
    raise. *)

Module Payload.

Set Warnings "-register-all".

Inductive json : Type :=
  | JNull
  | JBool (b : bool)
  | JNum (q : Q)
  | JStr (s : string)
  | JArr (l : list json)
  | JObj (members : list (string * json)).

(** A JSON object decoded into a dict: its members, keys unique. *)
Definition object : Type := list (string * json).

Fixpoint member (k : string) (o : object) : option json :=
  match o with
  | [] => None
  | (k', v) :: o' => if bool_decide (k' = k) then Some v else member k o'
  end.

(** [d.get(k)]: [None] (the decoding of null) when the key is missing. *)
Definition dict_get (k : string) (o : object) : json := default JNull (member k o).

(** [d.get(k, dflt)] *)
Definition dict_get_default (k : string) (dflt : json) (o : object) : json :=
  default dflt (member k o).

(** [v.get(k)] on a value that may not be a dict. *)
Definition py_get (v : json) (k : string) : outcome json :=
  match v with
  | JObj o => Return (dict_get k o)
  | _ => Raise AttributeError
  end.

(** Truth value of a decoded JSON value. *)
Definition truthy (v : json) : bool :=
  match v with
  | JNull => false
  | JBool b => b
  | JNum q => negb (Qnum q =? 0)
  | JStr s => negb (bool_decide (s = ""))
  | JArr l => negb (bool_decide (l = []))
  | JObj o => negb (bool_decide (o = []))
  end.

Definition price_level_map : list (string * Z) :=
  [ ("PRICE_LEVEL_FREE", 0);
    ("PRICE_LEVEL_INEXPENSIVE", 1);
    ("PRICE_LEVEL_MODERATE", 2);
    ("PRICE_LEVEL_EXPENSIVE", 3);
    ("PRICE_LEVEL_VERY_EXPENSIVE", 4) ].

Fixpoint assoc (k : string) (m : list (string * Z)) : option Z :=
  match m with
  | [] => None
  | (k', v) :: m' => if bool_decide (k' = k) then Some v else assoc k m'
  end.

(** [price_level_map.get(v)]: a list or a dict is not hashable. *)
Definition price_level_map_get (v : json) : outcome (option Z) :=
  match v with
  | JStr s => Return (assoc s price_level_map)
  | JArr _ | JObj _ => Raise TypeError
  | _ => Return None
  end.

Record restaurant_dict : Type := {
  google_place_id : json;
  name : json;
  formatted_address : json;
  lat : json;
  lng : json;
  primary_type : json;
  types : json;
  rating : json;
  user_rating_count : json;
  price_level : option Z;
  phone : json;
  website : json;
  provider_payload : object;
  last_fetched_at : Z;
}.

Definition parse_google_place (now : Z) (place : object) : outcome restaurant_dict :=
  let location := dict_get_default "location" (JObj []) place in
  obind (py_get location "latitude") (λ lat,
  obind (py_get location "longitude") (λ lng,
  let display_name := dict_get_default "displayName" (JObj []) place in
  let name := match display_name with
              | JObj o => dict_get "text" o
              | _ => JNull
              end in
  let price_level_str := dict_get "priceLevel" place in
  obind (if truthy price_level_str then price_level_map_get price_level_str
         else Return None) (λ price_level,
  Return {| google_place_id := dict_get "id" place;
            name := name;
            formatted_address := dict_get "formattedAddress" place;
            lat := lat;
            lng := lng;
            primary_type := dict_get "primaryType" place;
            types := dict_get_default "types" (JArr []) place;
            rating := dict_get "rating" place;
            user_rating_count := dict_get "userRatingCount" place;
            price_level := price_level;
            phone := dict_get "nationalPhoneNumber" place;
            website := dict_get "websiteUri" place;
            provider_payload := place;
            last_fetched_at := now |}))).

End Payload.

(** ** The provider client ([google_places.py]) *)

Module GooglePlaces.

(** One place of a provider response: the value of its ["id"] member
    ([None] when the member is missing or null) and the other members of
    the raw object.  Ids are strings, as the provider's schema has them;
    an object whose id is a number, a boolean, or an empty list or
    object is outside the model. *)
Record place : Type := Place {
  place_id : option string;
  place_payload : Payload.object;
}.

(** The raw object of a place, as [parse_google_place] receives it. *)
Definition to_object (p : place) : Payload.object :=
  match place_id p with
  | Some i => ("id", Payload.JStr i) :: place_payload p
  | None => place_payload p
  end.

(** An element of the ["places"] array: a JSON object with an id as in
    [place]; a JSON object whose id is a non-empty list or object, which
    cannot be hashed; or any other JSON value, on which [place.get]
    raises. *)
Inductive element : Type :=
  | Obj (p : place)
  | ObjUnhashableId
  | NonObj.

(** The value of [data.get("places", [])] as the merge uses it: a value
    with a [len], given by the elements that iterating it yields, or a
    value that has no [len] (null, a number, a boolean).  The provider
    sends a list; an object or a string has a [len] too, and iterating it
    yields its keys or its characters, which are strings and so [NonObj]:
    the empty object and the empty string are [PlacesList []]. *)
Inductive places_value : Type :=
  | PlacesList (l : list element)
  | PlacesNotList.

(** What one POST to [places:searchNearby] does: [client.post],
    [raise_for_status] or [response.json] raises (transport failure,
    timeout, HTTP error status, body that is not JSON), or the body is a
    JSON object whose ["places"] member is absent or has some value. *)
Inductive transport : Type :=
  | PostRaised
  | Body (places : option places_value).

(** The provider as the client sees it: the answer to the request for one
    group of types around a centre. *)
Definition provider : Type := coord → coord → Z → list string → transport.

Definition DEFAULT_TYPE_GROUPS : list (list string) :=
  [ ["restaurant"];
    ["american_restaurant"; "hamburger_restaurant"; "steak_house"];
    ["italian_restaurant"; "pizza_restaurant"];
    ["mexican_restaurant"; "spanish_restaurant"];
    ["chinese_restaurant"; "japanese_restaurant"; "sushi_restaurant"];
    ["korean_restaurant"; "thai_restaurant"; "vietnamese_restaurant"];
    ["indian_restaurant"; "mediterranean_restaurant"; "greek_restaurant"];
    ["fast_food_restaurant"; "sandwich_shop"; "meal_takeaway"];
    ["cafe"; "coffee_shop"; "bakery"];
    ["ice_cream_shop"; "bar"; "juice_shop"];
    ["vegan_restaurant"; "vegetarian_restaurant"];
    ["middle_eastern_restaurant"; "french_restaurant"];
    ["seafood_restaurant"];
    ["barbecue_restaurant"; "ramen_restaurant"];
    ["breakfast_restaurant"; "brunch_restaurant"] ].

(** [if included_types and len(included_types) > 0: [included_types[:10]]
     else: DEFAULT_TYPE_GROUPS[:15]] *)
Definition type_groups (included_types : option (list string)) : list (list string) :=
  match included_types with
  | Some (t :: ts) => [take 10 (t :: ts)]
  | _ => take 15 DEFAULT_TYPE_GROUPS
  end.

(** [fetch_group]: the [try] absorbs every exception of the request into
    an empty list. *)
Definition fetch_group (t : transport) : places_value :=
  match t with
  | PostRaised => PlacesList []
  | Body None => PlacesList []
  | Body (Some v) => v
  end.

(** [all_places: dict[str, dict]]: a Python dict keeps its keys in
    insertion order, so it is an association list with unique keys. *)
Definition pydict : Type := list (string * place).

Definition dict_contains (k : string) (d : pydict) : bool :=
  bool_decide (k ∈ d.*1).

(** [d[k] = v]: a new key goes last, an existing key keeps its position. *)
Fixpoint dict_setitem (k : string) (v : place) (d : pydict) : pydict :=
  match d with
  | [] => [(k, v)]
  | (k', v') :: d' =>
      if bool_decide (k' = k) then (k, v) :: d' else (k', v') :: dict_setitem k v d'
  end.

(** Truth value of [place.get("id")]: [None] and the empty string are
    false. *)
Definition truthy_id (i : option string) : option string :=
  match i with
  | Some s => if bool_decide (s = "") then None else Some s
  | None => None
  end.

(** The body of [for place in places]. *)
Definition merge_place (d : pydict) (e : element) : outcome pydict :=
  match e with
  | NonObj => Raise AttributeError
  | ObjUnhashableId => Raise TypeError   (* [place_id not in all_places] hashes the id *)
  | Obj p =>
      match truthy_id (place_id p) with
      | Some i => if dict_contains i d then Return d else Return (dict_setitem i p d)
      | None => Return d
      end
  end.

Fixpoint merge_places (d : pydict) (l : list element) : outcome pydict :=
  match l with
  | [] => Return d
  | e :: l' => obind (merge_place d e) (λ d', merge_places d' l')
  end.

(** The body of [for places in results], on the pair
    [(all_places, raw_places_count)]. *)
Definition merge_group (st : pydict * Z) (v : places_value) : outcome (pydict * Z) :=
  match v with
  | PlacesNotList => Raise TypeError
  | PlacesList l =>
      let raw_places_count := st.2 + Z.of_nat (length l) in
      obind (merge_places st.1 l) (λ d', Return (d', raw_places_count))
  end.

Fixpoint merge_results (st : pydict * Z) (results : list places_value)
  : outcome (pydict * Z) :=
  match results with
  | [] => Return st
  | v :: rest => obind (merge_group st v) (λ st', merge_results st' rest)
  end.

(** [l[:m]] for a Python int [m]: a negative bound counts from the end. *)
Definition slice_to {A} (m : Z) (l : list A) : list A :=
  if m <? 0 then take (Z.to_nat (Z.of_nat (length l) + m)) l
  else take (Z.to_nat m) l.

Record meta : Type := Meta {
  requests_made : Z;
  max_requests : Z;
  raw_places : Z;
  unique_places : Z;
  truncated : bool;
}.

(** The part of [search_nearby] after [asyncio.gather]: [results] holds
    what each [fetch_group] returned, in the order of [type_groups]. *)
Definition process_results (n_groups : nat) (results : list places_value) (max_results : Z)
  : outcome (list place * meta) :=
  obind (merge_results ([], 0) results) (λ st,
    let all_places := st.1 in
    let result_list := all_places.*2 in
    let truncated := Z.of_nat (length result_list) >? max_results in
    let final_result := slice_to max_results result_list in
    Return (final_result,
            {| requests_made := Z.of_nat n_groups;
               max_requests := Z.of_nat n_groups;
               raw_places := st.2;
               unique_places := Z.of_nat (length all_places);
               truncated := truncated |})).

(** The fan-out over the per-group transports, joined in the order of
    the groups: [asyncio.gather] returns its results in the order of the
    awaitables it was given. *)
Definition fan_out (transports : list transport) (max_results : Z)
  : outcome (list place * meta) :=
  process_results (length transports) (fetch_group <$> transports) max_results.

(** [search_nearby] over an explicit list of groups: one request per
    group. *)
Definition search_groups (api : list string → transport) (groups : list (list string))
    (max_results : Z) : outcome (list place * meta) :=
  fan_out (api <$> groups) max_results.

Definition search_nearby (api : provider) (lat lng : coord) (radius : Z)
    (included_types : option (list string)) (max_results : Z)
  : outcome (list place * meta) :=
  search_groups (api lat lng radius) (type_groups included_types) max_results.

(** *** The barrier of [asyncio.gather], with the completion order explicit

    Task [i] settles when its index comes up in [completion]; its result
    is stored in slot [i].  [gather] returns once every slot is filled,
    and returns the slots in index order. *)
Definition settle {A} (tasks : list A) (slots : list (option A)) (i : nat)
  : list (option A) :=
  match tasks !! i with
  | Some r => <[i := Some r]> slots
  | None => slots
  end.

Definition gather {A} (completion : list nat) (tasks : list A) : option (list A) :=
  mapM id (foldl (settle tasks) (replicate (length tasks) None) completion).

Definition fan_out_scheduled (completion : list nat) (transports : list transport)
    (max_results : Z) : option (outcome (list place * meta)) :=
  results ← gather completion (fetch_group <$> transports);
  Some (process_results (length transports) results max_results).

(** *** Reference definitions, from the words of the specification

    [first_seen seen ps]: the records of [ps], in order, that carry a
    provider id not in [seen] and not carried by an earlier record. *)
Fixpoint first_seen (seen : list string) (ps : list place) : list (string * place) :=
  match ps with
  | [] => []
  | p :: ps' =>
      match truthy_id (place_id p) with
      | Some i =>
          if bool_decide (i ∈ seen) then first_seen seen ps'
          else (i, p) :: first_seen (i :: seen) ps'
      | None => first_seen seen ps'
      end
  end.

(** A group request that succeeded with the records [ps]. *)
Definition succeeded (ps : list place) : transport :=
  Body (Some (PlacesList (Obj <$> ps))).

(** What [fetch_group] returns for it. *)
Definition records (ps : list place) : places_value := PlacesList (Obj <$> ps).

(** How one group request ends, for a provider that answers within its
    schema: it fails (transport error, timeout, error status), or it
    answers without a ["places"] member, or with a list of records. *)
Inductive reply : Type :=
  | Failed
  | NoPlaces
  | Found (ps : list place).

Definition transport_of (r : reply) : transport :=
  match r with
  | Failed => PostRaised
  | NoPlaces => Body None
  | Found ps => succeeded ps
  end.

(** The records a group contributes. *)
Definition found (r : reply) : list place :=
  match r with
  | Found ps => ps
  | _ => []
  end.

(** All raw records of a search, in the order of the groups. *)
Definition raw_records (replies : list reply) : list place := concat (found <$> replies).

(** The deduplicated records of a search, in merge order. *)
Definition deduplicated (replies : list reply) : list place :=
  (first_seen [] (raw_records replies)).*2.

(** How many records of [ps] carry the provider id [i]. *)
Definition occurrences (i : string) (ps : list place) : nat :=
  length (filter (λ p, place_id p = Some i) ps).

(** Every task of [n] settles in the completion order [completion]. *)
Definition settles_all (n : nat) (completion : list nat) : bool :=
  forallb (λ i, bool_decide (i ∈ completion)) (seq 0 n).

(** The first record of [raw] that carries the id [i]. *)
Definition first_with_id (i : string) (raw : list place) : option place :=
  find (λ r, bool_decide (place_id r = Some i)) raw.

(** What [fetch_group] hands to the merge is a list of JSON objects. *)
Definition well_formed (t : transport) : Prop := ∃ ps, fetch_group t = records ps.

End GooglePlaces.

(** ** The cache key ([cache/base.py]) *)

Module CacheKey.

(** [round(x, 3)] on the exact value [x] of a double: the nearest multiple
    of 1/1000, ties to the even one, as a number of thousandths. *)
Definition round_half_even (x : Q) : Z :=
  let n := Qnum x * 1000 in
  let d := Z.pos (Qden x) in
  let q := n / d in
  let r := n mod d in
  match 2 * r ?= d with
  | Lt => q
  | Gt => q + 1
  | Eq => if Z.even q then q else q + 1
  end.

(** The float that [round] returns: its sign bit and its magnitude in
    thousandths.  A negative value that rounds to zero gives [-0.0]. *)
Definition round3 (c : coord) : bool * Z :=
  match c with
  | NegZero => (true, 0)
  | Finite q => (Qnum q <? 0, Z.abs (round_half_even q))
  end.

Definition str_of_Z (z : Z) : string := NilZero.string_of_int (Z.to_int z).

(** The digits after the point of [repr] of a float with at most three
    decimals: trailing zeros dropped, one digit at least. *)
Definition frac_digits (r : Z) : string :=
  let d1 := str_of_Z (r / 100) in
  let d2 := str_of_Z (r / 10 mod 10) in
  let d3 := str_of_Z (r mod 10) in
  if negb (r mod 10 =? 0) then d1 ++ d2 ++ d3
  else if negb (r / 10 mod 10 =? 0) then d1 ++ d2
  else d1.

(** [repr] of the rounded float, as the f-string prints it. *)
Definition float_repr (f : bool * Z) : string :=
  (if f.1 then "-" else "") ++ str_of_Z (f.2 / 1000) ++ "." ++ frac_digits (f.2 mod 1000).

Definition str_le (a b : string) : Prop := String.leb a b = true.

Global Instance str_le_dec a b : Decision (str_le a b).
Proof. unfold str_le. apply _. Defined.

(** [sorted(types)]: Python orders strings by code point, which on UTF-8
    bytes is the lexicographic order of the bytes. *)
Definition sorted (types : list string) : list string := merge_sort str_le types.

(** [",".join(l)] *)
Definition join (sep : string) (l : list string) : string := String.concat sep l.

Definition generate_cache_key (lat lng : coord) (radius : Z) (types : list string) : string :=
  let lat_rounded := round3 lat in
  let lng_rounded := round3 lng in
  let types_sorted := join "," (sorted types) in
  "nearby:" ++ float_repr lat_rounded ++ ":" ++ float_repr lng_rounded ++ ":"
    ++ str_of_Z radius ++ ":" ++ types_sorted.

(** The decimals of a coordinate through the third place: its sign and the
    thousandths of its magnitude, cut off (not rounded). *)
Definition first_three_decimals (c : coord) : bool * Z :=
  match c with
  | NegZero => (true, 0)
  | Finite q => (Qnum q <? 0, Z.abs (Qnum q) * 1000 / Z.pos (Qden q))
  end.

(** Where what follows the third decimal lies with respect to half a
    thousandth: below ([Lt]), exactly on it ([Eq]) or above ([Gt]). *)
Definition half_side (c : coord) : comparison :=
  match c with
  | NegZero => Lt
  | Finite q => 2 * (Z.abs (Qnum q) * 1000 mod Z.pos (Qden q)) ?= Z.pos (Qden q)
  end.

(** The rounding of a magnitude from its thousandths cut off and the side
    of the rest. *)
Definition round_up (k : Z) (side : comparison) : Z :=
  match side with
  | Lt => k
  | Gt => k + 1
  | Eq => if Z.even k then k else k + 1
  end.

End CacheKey.

(** ** The world outside the process

    The two tables of the Postgres database, the keyspace of the Redis
    server, the clock, the provider, and which of the external services
    currently fail. *)

(** A row of [nearby_query_cache] (primary key [cache_key]). *)
Record cache_row : Type := CacheRow {
  restaurant_place_ids : list string;
  expires_at : Z;
}.

(** A row of [restaurants].  The columns [name], [formatted_address], [lat],
    [lng], [primary_type], [types], [rating], [user_rating_count],
    [price_level], [phone] and [website] are projections of the provider
    payload and are carried inside [provider_payload]. *)
Record Restaurant : Type := RestaurantRow {
  id : N;                                (* gen_random_uuid() *)
  google_place_id : string;              (* NOT NULL, UNIQUE *)
  provider_payload : GooglePlaces.place;
  last_fetched_at : Z;
  created_at : Z;
}.

Record Faults : Type := {
  redis_down : bool;          (* every command to the Redis server raises *)
  cache_session_down : bool;  (* statements of the cache's own sessions raise *)
  select_down : bool;         (* the SELECT on [restaurants] raises *)
  upsert_down : bool;         (* the INSERT .. ON CONFLICT on [restaurants] raises: the
                                 database does not answer, or a parsed value is not
                                 one that its column takes *)
}.

Definition no_faults : Faults :=
  {| redis_down := false; cache_session_down := false;
     select_down := false; upsert_down := false |}.

(** Calls that leave the process, in the order they are made. *)
Inductive event : Type :=
  | CacheGet (key : string)
  | CacheSet (key : string) (place_ids : list string) (ttl_seconds : Z)
  | ProviderSearch
  | Upsert (place_ids : list (option string))
  | Lookup (place_ids : list string).

Record World : Type := {
  now : Z;                                    (* datetime.now(timezone.utc), in microseconds *)
  restaurants : list Restaurant;              (* table [restaurants]; the order of the
                                                 list stands for the order in which a
                                                 SELECT returns the rows, which the
                                                 server is free to choose *)
  nearby_query_cache : gmap string cache_row; (* table [nearby_query_cache] *)
  redis_keys : gmap string (list string * Z); (* Redis: value and expiry instant of each key *)
  next_uuid : N;
  places_api : GooglePlaces.provider;
  faults : Faults;
  trace : list event;
}.

Definition set_restaurants (t : list Restaurant) (u : N) (w : World) : World :=
  {| now := now w; restaurants := t; nearby_query_cache := nearby_query_cache w;
     redis_keys := redis_keys w; next_uuid := u; places_api := places_api w;
     faults := faults w; trace := trace w |}.

Definition set_nearby_query_cache (t : gmap string cache_row) (w : World) : World :=
  {| now := now w; restaurants := restaurants w; nearby_query_cache := t;
     redis_keys := redis_keys w; next_uuid := next_uuid w; places_api := places_api w;
     faults := faults w; trace := trace w |}.

Definition set_redis_keys (t : gmap string (list string * Z)) (w : World) : World :=
  {| now := now w; restaurants := restaurants w; nearby_query_cache := nearby_query_cache w;
     redis_keys := t; next_uuid := next_uuid w; places_api := places_api w;
     faults := faults w; trace := trace w |}.

Definition add_event (e : event) (w : World) : World :=
  {| now := now w; restaurants := restaurants w; nearby_query_cache := nearby_query_cache w;
     redis_keys := redis_keys w; next_uuid := next_uuid w; places_api := places_api w;
     faults := faults w; trace := trace w ++ [e] |}.

(** What the environment does between two requests: time passes, services
    fail or recover, the provider answers differently. *)
Definition later (dt : Z) (f : Faults) (api : GooglePlaces.provider) (w : World) : World :=
  {| now := now w + dt; restaurants := restaurants w;
     nearby_query_cache := nearby_query_cache w;
     redis_keys := redis_keys w; next_uuid := next_uuid w; places_api := api;
     faults := f; trace := trace w |}.

(** ** Coroutines: state and exceptions *)

Definition Async (A : Type) : Type := World → outcome A * World.

Definition ret {A} (a : A) : Async A := λ w, (Return a, w).
Definition raise {A} (e : exn) : Async A := λ w, (Raise e, w).
Definition bind {A B} (m : Async A) (k : A → Async B) : Async B :=
  λ w, match m w with
       | (Return a, w') => k a w'
       | (Raise e, w') => (Raise e, w')
       end.
(** [try: m  except Exception as e: h e] *)
Definition try_except {A} (m : Async A) (h : exn → Async A) : Async A :=
  λ w, match m w with
       | (Return a, w') => (Return a, w')
       | (Raise e, w') => h e w'
       end.
Definition lift {A} (o : outcome A) : Async A := λ w, (o, w).
(** One step against the world, given as a function of the state. *)
Definition step {A} (f : World → outcome A * World) : Async A := f.
Definition ask : Async World := λ w, (Return w, w).
Definition modify (f : World → World) : Async unit := λ w, (Return tt, f w).
Definition log (e : event) : Async unit := modify (add_event e).

(** Running [m] in [w] ends in an exception. *)
Definition raises {A} (m : Async A) (w : World) : Prop := ∃ e, (m w).1 = Raise e.

Global Instance Async_ret : MRet Async := @ret.
Global Instance Async_bind : MBind Async := λ A B k m, bind m k.

(** [timedelta(seconds=n)] in microseconds. *)
Definition seconds (n : Z) : Z := 1000000 * n.

(** [datetime.now(timezone.utc) + timedelta(seconds=n)] is defined: the
    seconds are within the range of [timedelta] and the sum is between
    [datetime.min] and [datetime.max]; instants count from 1970-01-01.
    Outside, Python raises [OverflowError]. *)
Definition expiry_representable (now n : Z) : Prop :=
  -999999999 * 86400 ≤ n < 1000000000 * 86400
  ∧ seconds (-62135596800) ≤ now + seconds n < seconds 253402300800.

(** ** The Postgres cache ([cache/postgres.py]) *)

Module PostgresCache.

(** [async with self._session_maker() as session]: a failing session
    raises out of the method; nothing of the statement is kept. *)
Definition session {A} (body : Async A) : Async A :=
  λ w, if cache_session_down (faults w) then (Raise DBAPIError, w) else body w.

Definition get (key : string) : Async (option (list string)) :=
  log (CacheGet key);;
  session (
    w ← ask;
    match nearby_query_cache w !! key with
    | Some entry =>
        if now w <? expires_at entry
        then mret (Some (restaurant_place_ids entry))
        else mret None
    | None => mret None
    end).

(** Defined where the expiry is a datetime ([expiry_representable]);
    outside, the addition raises [OverflowError] and no statement is
    sent. *)
Definition set (key : string) (place_ids : list string) (ttl_seconds : Z) : Async unit :=
  log (CacheSet key place_ids ttl_seconds);;
  session (
    w ← ask;
    let expires_at := now w + seconds ttl_seconds in
    modify (set_nearby_query_cache
              (<[key := CacheRow place_ids expires_at]> (nearby_query_cache w)))).

Definition delete (key : string) : Async bool :=
  session (
    w ← ask;
    let rowcount := match nearby_query_cache w !! key with Some _ => 1 | None => 0 end in
    modify (set_nearby_query_cache (base.delete key (nearby_query_cache w)));;
    mret (0 <? rowcount)).

Definition cleanup_expired : Async Z :=
  session (
    w ← ask;
    let kept := filter (λ kv, now w < expires_at kv.2) (nearby_query_cache w) in
    modify (set_nearby_query_cache kept);;
    mret (Z.of_nat (size (nearby_query_cache w)) - Z.of_nat (size kept))).

Definition close : Async unit := mret tt.

End PostgresCache.

(** ** The Redis cache ([cache/redis.py]) *)

(** The client object of the [redis] package.  The value of a key is the
    JSON text of a list of strings; [json.loads (json.dumps l) = l] on such
    lists and the text is never empty, so the text is represented by the
    list it encodes. *)
Record redis_client : Type := {
  client_get : string → Async (option (list string));
  client_setex : string → Z → list string → Async unit;
  client_delete : string → Async Z;
}.

Module RedisCache.

Section Methods.
(** [self._get_client()]: may itself raise (package missing, bad URL). *)
Variable _get_client : Async redis_client.

Definition get (key : string) : Async (option (list string)) :=
  log (CacheGet key);;
  try_except
    (client ← _get_client;
     data ← client_get client key;
     match data with
     | Some l => mret (Some l)
     | None => mret None
     end)
    (λ _, mret None).

Definition set (key : string) (place_ids : list string) (ttl_seconds : Z) : Async unit :=
  log (CacheSet key place_ids ttl_seconds);;
  try_except
    (client ← _get_client;
     client_setex client key ttl_seconds place_ids)
    (λ _, mret tt).

Definition delete (key : string) : Async bool :=
  try_except
    (client ← _get_client;
     result ← client_delete client key;
     mret (0 <? result))
    (λ _, mret false).

Definition cleanup_expired : Async Z := mret 0.
End Methods.

(** The Redis server behind the client: a key is visible until its expiry
    instant has passed; SETEX refuses a time to live that is not
    positive. *)
Definition command {A} (body : Async A) : Async A :=
  λ w, if redis_down (faults w) then (Raise RedisError, w) else body w.

Definition live (w : World) (key : string) : option (list string) :=
  match redis_keys w !! key with
  | Some (v, expiry) => if now w <=? expiry then Some v else None
  | None => None
  end.

Definition server : redis_client :=
  {| client_get := λ key, command (w ← ask; mret (live w key));
     client_setex := λ key ttl v,
       command (
         if ttl <=? 0 then raise RedisError
         else w ← ask;
              modify (set_redis_keys (<[key := (v, now w + seconds ttl)]> (redis_keys w))));
     client_delete := λ key,
       command (
         w ← ask;
         let n := match live w key with Some _ => 1 | None => 0 end in
         modify (set_redis_keys (base.delete key (redis_keys w)));;
         mret n) |}.

Definition connect : Async redis_client := mret server.

End RedisCache.

(** ** Settings and the choice of the backend ([settings.py], [cache/__init__.py]) *)

Record Settings : Type := {
  cache_backend : string;
  redis_url : option string;
  nearby_cache_ttl_seconds : Z;
}.

Inductive CacheBackend : Type :=
  | Postgres
  | Redis.

Definition get_cache (settings : Settings) : outcome CacheBackend :=
  if bool_decide (cache_backend settings = "redis") then
    match redis_url settings with
    | Some (String _ _) => Return Redis
    | _ => Raise ValueError
    end
  else Return Postgres.

Definition cache_get (cache : CacheBackend) (key : string) : Async (option (list string)) :=
  match cache with
  | Postgres => PostgresCache.get key
  | Redis => RedisCache.get RedisCache.connect key
  end.

Definition cache_set (cache : CacheBackend) (key : string) (place_ids : list string)
    (ttl_seconds : Z) : Async unit :=
  match cache with
  | Postgres => PostgresCache.set key place_ids ttl_seconds
  | Redis => RedisCache.set RedisCache.connect key place_ids ttl_seconds
  end.

Definition cache_delete (cache : CacheBackend) (key : string) : Async bool :=
  match cache with
  | Postgres => PostgresCache.delete key
  | Redis => RedisCache.delete RedisCache.connect key
  end.

Definition cache_cleanup_expired (cache : CacheBackend) : Async Z :=
  match cache with
  | Postgres => PostgresCache.cleanup_expired
  | Redis => RedisCache.cleanup_expired
  end.

(** ** The restaurant store ([db.py]) *)

Module Db.

(** One dict of [restaurants_data], as [parse_google_place] builds it. *)
Record restaurant_data : Type := {
  d_google_place_id : option string;
  d_provider_payload : GooglePlaces.place;
  d_last_fetched_at : Z;
}.

(** [ON CONFLICT (google_place_id) DO UPDATE]: every column but [id],
    [google_place_id] and [created_at] is overwritten. *)
Definition apply_update (d : restaurant_data) (old : Restaurant) : Restaurant :=
  {| id := id old;
     google_place_id := google_place_id old;
     provider_payload := d_provider_payload d;
     last_fetched_at := d_last_fetched_at d;
     created_at := created_at old |}.

(** The row with the place id [gid] updated, if there is one.  The list
    keeps the row where it was: one of the orders in which the server may
    return the rows afterwards, none of which the code relies on. *)
Fixpoint update_existing (gid : string) (d : restaurant_data) (tbl : list Restaurant)
  : option (list Restaurant * Restaurant) :=
  match tbl with
  | [] => None
  | r :: tbl' =>
      if bool_decide (google_place_id r = gid)
      then Some (apply_update d r :: tbl', apply_update d r)
      else match update_existing gid d tbl' with
           | Some (t, x) => Some (r :: t, x)
           | None => None
           end
  end.

(** One row of the VALUES list: update the row with this place id, or
    insert a new one with a fresh [id] and [created_at = now()]. *)
Definition upsert_one (now : Z) (gid : string) (d : restaurant_data)
    (st : list Restaurant * N) : (list Restaurant * N) * Restaurant :=
  match update_existing gid d st.1 with
  | Some (t, x) => ((t, st.2), x)
  | None =>
      let x := {| id := st.2; google_place_id := gid;
                  provider_payload := d_provider_payload d;
                  last_fetched_at := d_last_fetched_at d;
                  created_at := now |} in
      (((st.1 ++ [x])%list, N.succ st.2), x)
  end.

Fixpoint upsert_rows (now : Z) (rows : list (string * restaurant_data))
    (st : list Restaurant * N) : (list Restaurant * N) * list Restaurant :=
  match rows with
  | [] => (st, [])
  | (gid, d) :: rows' =>
      let '(st1, x) := upsert_one now gid d st in
      let '(st2, xs) := upsert_rows now rows' st1 in
      (st2, x :: xs)
  end.

(** The statement as the server runs it: a NULL place id violates NOT
    NULL, and two rows of one statement with the same place id make
    [ON CONFLICT DO UPDATE] fail; in both cases nothing is written. *)
Definition insert_on_conflict (now : Z) (data : list restaurant_data)
    (st : list Restaurant * N) : option ((list Restaurant * N) * list Restaurant) :=
  match mapM d_google_place_id data with
  | Some gids =>
      if bool_decide (NoDup gids) then Some (upsert_rows now (zip gids data) st)
      else None
  | None => None
  end.

Definition upsert_restaurants (restaurants_data : list restaurant_data)
  : Async (list Restaurant) :=
  match restaurants_data with
  | [] => mret []
  | _ =>
      log (Upsert (d_google_place_id <$> restaurants_data));;
      step (λ w,
        if upsert_down (faults w) then (Raise DBAPIError, w)
        else match insert_on_conflict (now w) restaurants_data
                     (restaurants w, next_uuid w) with
             | Some ((tbl, u), returned) => (Return returned, set_restaurants tbl u w)
             | None => (Raise DBAPIError, w)
             end)
  end.

Definition get_restaurants_by_place_ids (place_ids : list string) : Async (list Restaurant) :=
  match place_ids with
  | [] => mret []
  | _ =>
      log (Lookup place_ids);;
      step (λ w,
        if select_down (faults w) then (Raise DBAPIError, w)
        else (Return (filter (λ r, google_place_id r ∈ place_ids) (restaurants w)), w))
  end.

(** [timedelta(days=n)] in microseconds. *)
Definition days (n : Z) : Z := 86400 * seconds n.

(** [datetime.now(timezone.utc) - timedelta(days=n)] is defined: the days
    are within the range of [timedelta] and the difference is between
    [datetime.min] and [datetime.max]; instants count from 1970-01-01.
    Outside, Python raises [OverflowError]. *)
Definition cutoff_representable (now n : Z) : Prop :=
  -999999999 ≤ n ≤ 999999999
  ∧ seconds (-62135596800) ≤ now - days n < seconds 253402300800.

(** The ids of [place_ids] that have no row fetched after the cutoff; the
    fresh ids are collected in a set first.  Defined where the cutoff is
    ([cutoff_representable]). *)
Definition get_stale_restaurants (place_ids : list string) (max_age_days : Z)
  : Async (list string) :=
  match place_ids with
  | [] => mret []
  | _ =>
      log (Lookup place_ids);;
      step (λ w,
        if select_down (faults w) then (Raise DBAPIError, w)
        else
          let cutoff := now w - days max_age_days in
          let fresh_ids :=
            google_place_id <$>
              filter (λ r, google_place_id r ∈ place_ids ∧ cutoff < last_fetched_at r)
                (restaurants w) in
          (Return (filter (λ pid, pid ∉ fresh_ids) place_ids), w))
  end.

(** [check_db_connection]: [SELECT 1] on the session of the request, any
    exception turned into [False]; [probe_fails] says whether the
    statement raises. *)
Definition check_db_connection (probe_fails : bool) : Async bool :=
  try_except
    (step (λ w, if probe_fails then (Raise DBAPIError, w) else (Return tt, w));;
     mret true)
    (λ _, mret false).

End Db.

(** What the model keeps of the dict [parse_google_place] returns: the
    place id, the raw object and the fetch time; the other columns are
    projections of the raw object. *)
Definition restaurant_data_of (now : Z) (place : GooglePlaces.place) : Db.restaurant_data :=
  {| Db.d_google_place_id := GooglePlaces.place_id place;
     Db.d_provider_payload := place;
     Db.d_last_fetched_at := now |}.

(** [parse_google_place] ([google_places.py]) on a place of the search;
    [now] is [datetime.now(timezone.utc)].  It raises where
    [Payload.parse_google_place] does. *)
Definition parse_google_place (now : Z) (place : GooglePlaces.place)
  : outcome Db.restaurant_data :=
  obind (Payload.parse_google_place now (GooglePlaces.to_object place))
    (λ _, Return (restaurant_data_of now place)).


(** ** The endpoint ([main.py], [models.py]) *)

Module Main.

Record NearbySearchRequest : Type := {
  location_lat : coord;
  location_lng : coord;
  radius : Z;
  max_results : Z;
  included_types : option (list string);
}.

Record RestaurantResponse : Type := {
  r_id : N;
  r_google_place_id : string;
  r_payload : GooglePlaces.place;
  r_last_fetched_at : Z;
}.

Definition model_validate (r : Restaurant) : RestaurantResponse :=
  {| r_id := id r; r_google_place_id := google_place_id r;
     r_payload := provider_payload r; r_last_fetched_at := last_fetched_at r |}.

Record NearbySearchResponse : Type := {
  restaurants : list RestaurantResponse;
  count : Z;
  cached : bool;
  cache_key : option string;
  requests_made : option Z;
  max_requests : option Z;
  raw_places : option Z;
  unique_places : option Z;
  truncated : option bool;
}.

Definition search_nearby_restaurants (settings : Settings) (request : NearbySearchRequest)
    (x_skip_cache : option string) : Async NearbySearchResponse :=
  cache ← lift (get_cache settings);
  let skip_cache := bool_decide (x_skip_cache = Some "true") in
  let cache_key :=
    CacheKey.generate_cache_key (location_lat request) (location_lng request)
      (radius request) (default [] (included_types request)) in
  hit ← (if skip_cache then mret None
         else
           cached_place_ids ← cache_get cache cache_key;
           match cached_place_ids with
           | Some ids =>
               restaurants ← Db.get_restaurants_by_place_ids ids;
               mret (Some {| restaurants := model_validate <$> restaurants;
                             count := Z.of_nat (length restaurants);
                             cached := true;
                             cache_key := Some cache_key;
                             requests_made := None; max_requests := None;
                             raw_places := None; unique_places := None;
                             truncated := None |})
           | None => mret None
           end);
  match hit with
  | Some response => mret response
  | None =>
      found ← try_except
                (log ProviderSearch;;
                 w ← ask;
                 lift (GooglePlaces.search_nearby (places_api w)
                         (location_lat request) (location_lng request) (radius request)
                         (included_types request) (max_results request)))
                (λ _, raise (HTTPException 503 "Restaurant search temporarily unavailable"));
      let '(places, places_meta) := found in
      match places with
      | [] =>
          mret {| restaurants := []; count := 0; cached := false;
                  cache_key := Some cache_key;
                  requests_made := Some (GooglePlaces.requests_made places_meta);
                  max_requests := Some (GooglePlaces.max_requests places_meta);
                  raw_places := Some (GooglePlaces.raw_places places_meta);
                  unique_places := Some (GooglePlaces.unique_places places_meta);
                  truncated := Some (GooglePlaces.truncated places_meta) |}
      | _ =>
          try_except
            (w ← ask;
             restaurants_data ← lift (omapM (parse_google_place (now w)) places);
             restaurants ← Db.upsert_restaurants restaurants_data;
             let place_ids := google_place_id <$> restaurants in
             cache_set cache cache_key place_ids (nearby_cache_ttl_seconds settings);;
             mret {| restaurants := model_validate <$> restaurants;
                     count := Z.of_nat (length restaurants);
                     cached := false;
                     cache_key := Some cache_key;
                     requests_made := Some (GooglePlaces.requests_made places_meta);
                     max_requests := Some (GooglePlaces.max_requests places_meta);
                     raw_places := Some (GooglePlaces.raw_places places_meta);
                     unique_places := Some (GooglePlaces.unique_places places_meta);
                     truncated := Some (GooglePlaces.truncated places_meta) |})
            (λ e, raise (HTTPException 500
                           ("Failed to process search results: " ++ exn_name e)))
      end
  end.

(** The status the client sees: FastAPI turns an [HTTPException] into its
    status code, and [unhandled_exception_handler] turns every other
    exception into a 500. *)
Definition http_status {A} (o : outcome A) : Z :=
  match o with
  | Return _ => 200
  | Raise (HTTPException status _) => status
  | Raise _ => 500
  end.

(** [GET /api/v1/nearby]: the POST handler on a request without types.
    Called as a plain function, the handler gets the [Header] default
    object for [x_skip_cache], which is not the string ["true"]. *)
Definition search_nearby_get (settings : Settings) (lat lng : coord) (radius max_results : Z)
  : Async NearbySearchResponse :=
  search_nearby_restaurants settings
    {| location_lat := lat; location_lng := lng; radius := radius;
       max_results := max_results; included_types := None |}
    None.


Record HealthResponse : Type := {
  status : string;
  database : string;
  timestamp : Z;
}.

(** [GET /health]; [probe_fails] says whether the [SELECT 1] of the
    probe raises. *)
Definition health_check (probe_fails : bool) : Async HealthResponse :=
  Db.check_db_connection probe_fails ≫= λ db_ok : bool,
  ask ≫= λ w : World,
  mret {| status := if db_ok then "healthy" else "degraded";
          database := if db_ok then "connected" else "disconnected";
          timestamp := now w |}.

(** [POST /api/v1/admin/cleanup-cache]; the result is [deleted_entries]. *)
Definition admin_cleanup_cache (settings : Settings) : Async Z :=
  cache ← lift (get_cache settings);
  cache_cleanup_expired cache.

Record ClearAllResponse : Type := {
  deleted_entries : Z;
  message : option string;
  error : option exn;
}.

(** [POST /api/v1/admin/clear-all-cache]: [DELETE FROM nearby_query_cache]
    on the session of the request, whatever the cache backend is;
    [statement_fails] says whether the statement or its commit raises. *)
Definition admin_clear_all_cache (statement_fails : bool) : Async ClearAllResponse :=
  try_except
    (deleted ← step (λ w,
       if statement_fails then (Raise DBAPIError, w)
       else (Return (Z.of_nat (size (nearby_query_cache w))),
             set_nearby_query_cache ∅ w));
     mret {| deleted_entries := deleted; message := Some "All cache cleared";
             error := None |})
    (λ e, mret {| deleted_entries := 0; message := None; error := Some e |}).

End Main.

(** ** Notions used to state the properties of the endpoint *)

(** What the cache holds for a key that a reader may see: the ids of an
    entry whose expiry has not passed. *)
Definition cache_live (cache : CacheBackend) (key : string) (w : World)
  : option (list string) :=
  match cache with
  | Postgres =>
      match nearby_query_cache w !! key with
      | Some entry =>
          if now w <? expires_at entry then Some (restaurant_place_ids entry) else None
      | None => None
      end
  | Redis => RedisCache.live w key
  end.

(** The key of a request. *)
Definition key_of (request : Main.NearbySearchRequest) : string :=
  CacheKey.generate_cache_key (Main.location_lat request) (Main.location_lng request)
    (Main.radius request) (default [] (Main.included_types request)).

(** The request goes on to the provider: the caller asked to skip the
    cache, or the cache lookup returned nothing. *)
Definition reaches_provider (cache : CacheBackend) (request : Main.NearbySearchRequest)
    (x_skip_cache : option string) (w : World) : Prop :=
  x_skip_cache = Some "true" ∨ (cache_get cache (key_of request) w).1 = Return None.

Definition add_events (evs : list event) (w : World) : World :=
  foldl (λ w e, add_event e w) w evs.

(** The calls a request makes before it asks the provider. *)
Definition lookup_events (request : Main.NearbySearchRequest)
    (x_skip_cache : option string) : list event :=
  if bool_decide (x_skip_cache = Some "true") then [] else [CacheGet (key_of request)].

(** What the provider client returns for a request in a world. *)
Definition provider_result (request : Main.NearbySearchRequest) (w : World)
  : outcome (list GooglePlaces.place * GooglePlaces.meta) :=
  GooglePlaces.search_nearby (places_api w)
    (Main.location_lat request) (Main.location_lng request) (Main.radius request)
    (Main.included_types request) (Main.max_results request).

(** The world when the provider has been asked. *)
Definition asked (request : Main.NearbySearchRequest) (x_skip_cache : option string)
    (w : World) : World :=
  add_event ProviderSearch (add_events (lookup_events request x_skip_cache) w).

(** The response to an empty fetch. *)
Definition empty_response (request : Main.NearbySearchRequest) (m : GooglePlaces.meta)
  : Main.NearbySearchResponse :=
  {| Main.restaurants := []; Main.count := 0; Main.cached := false;
     Main.cache_key := Some (key_of request);
     Main.requests_made := Some (GooglePlaces.requests_made m);
     Main.max_requests := Some (GooglePlaces.max_requests m);
     Main.raw_places := Some (GooglePlaces.raw_places m);
     Main.unique_places := Some (GooglePlaces.unique_places m);
     Main.truncated := Some (GooglePlaces.truncated m) |}.

(** The response to a fetch whose records were stored as [rows]. *)
Definition stored_response (request : Main.NearbySearchRequest) (rows : list Restaurant)
    (m : GooglePlaces.meta) : Main.NearbySearchResponse :=
  {| Main.restaurants := Main.model_validate <$> rows;
     Main.count := Z.of_nat (length rows);
     Main.cached := false;
     Main.cache_key := Some (key_of request);
     Main.requests_made := Some (GooglePlaces.requests_made m);
     Main.max_requests := Some (GooglePlaces.max_requests m);
     Main.raw_places := Some (GooglePlaces.raw_places m);
     Main.unique_places := Some (GooglePlaces.unique_places m);
     Main.truncated := Some (GooglePlaces.truncated m) |}.

(** The response to a request answered from the cache with [rows]. *)
Definition cached_response (request : Main.NearbySearchRequest) (rows : list Restaurant)
  : Main.NearbySearchResponse :=
  {| Main.restaurants := Main.model_validate <$> rows;
     Main.count := Z.of_nat (length rows);
     Main.cached := true;
     Main.cache_key := Some (key_of request);
     Main.requests_made := None; Main.max_requests := None;
     Main.raw_places := None; Main.unique_places := None;
     Main.truncated := None |}.

(** The second half of the endpoint, on a non-empty fetch: the [try] around
    parse, upsert and cache write. *)
Definition store_and_cache (settings : Settings) (cache : CacheBackend)
    (request : Main.NearbySearchRequest)
    (places : list GooglePlaces.place) (m : GooglePlaces.meta)
  : Async Main.NearbySearchResponse :=
  try_except
    (w ← ask;
     restaurants_data ← lift (omapM (parse_google_place (now w)) places);
     restaurants ← Db.upsert_restaurants restaurants_data;
     let place_ids := google_place_id <$> restaurants in
     cache_set cache (key_of request) place_ids (nearby_cache_ttl_seconds settings);;
     mret {| Main.restaurants := Main.model_validate <$> restaurants;
             Main.count := Z.of_nat (length restaurants);
             Main.cached := false;
             Main.cache_key := Some (key_of request);
             Main.requests_made := Some (GooglePlaces.requests_made m);
             Main.max_requests := Some (GooglePlaces.max_requests m);
             Main.raw_places := Some (GooglePlaces.raw_places m);
             Main.unique_places := Some (GooglePlaces.unique_places m);
             Main.truncated := Some (GooglePlaces.truncated m) |})
    (λ e, raise (HTTPException 500
                   ("Failed to process search results: " ++ exn_name e))).

(** The row [x] is what an upsert of [d] at time [now] leaves in a table
    that was [tbl]: the columns of [d], and the [id] and [created_at] of
    the row that had this place id, or a row created now. *)
Definition upserted (now : Z) (tbl : list Restaurant) (d : Db.restaurant_data)
    (x : Restaurant) : Prop :=
  Db.d_google_place_id d = Some (google_place_id x)
  ∧ provider_payload x = Db.d_provider_payload d
  ∧ last_fetched_at x = Db.d_last_fetched_at d
  ∧ (∀ r, r ∈ tbl → google_place_id r = google_place_id x →
       id x = id r ∧ created_at x = created_at r)
  ∧ (google_place_id x ∉ google_place_id <$> tbl → created_at x = now).

(** Every group request of the search fails. *)
Definition all_groups_fail (request : Main.NearbySearchRequest) (w : World) : Prop :=
  ∀ g, places_api w (Main.location_lat request) (Main.location_lng request)
         (Main.radius request) g = GooglePlaces.PostRaised.

(** ** Sample data *)

Module Sample.
Import GooglePlaces.

Definition pa : place :=
  Place (Some "ChIJa") [("displayName", Payload.JObj [("text", Payload.JStr "A")])].
Definition pb : place :=
  Place (Some "ChIJb") [("displayName", Payload.JObj [("text", Payload.JStr "B")])].
Definition pa' : place :=
  Place (Some "ChIJa") [("displayName", Payload.JObj [("text", Payload.JStr "A again")])].

(** 40.500244140625, 40.500732421875 and 40.50048828125, all exact
    doubles. *)
Definition lat_40_5002 : coord := Finite (165889 # 4096).
Definition lat_40_5007 : coord := Finite (165891 # 4096).
Definition lat_40_5004 : coord := Finite (165890 # 4096).
Definition lng_74_006 : coord := Finite (-74006 # 1000).

Definition provider_down : provider := λ _ _ _ _, PostRaised.

(** Answers the first default group with two records and the seafood
    group with a duplicate of the first. *)
Definition provider_up : provider := λ _ _ _ g,
  match g with
  | ["restaurant"] => succeeded [pa; pb]
  | ["seafood_restaurant"] => succeeded [pa']
  | _ => succeeded []
  end.

(** Answers every group without any record. *)
Definition provider_empty : provider := λ _ _ _ _, succeeded [].

(** Answers every group with a body whose ["places"] member is null. *)
Definition provider_malformed : provider := λ _ _ _ _, Body (Some PlacesNotList).

Definition world (api : provider) (f : Faults) : World :=
  {| now := 0; restaurants := []; nearby_query_cache := ∅; redis_keys := ∅;
     next_uuid := 0%N; places_api := api; faults := f; trace := [] |}.


Definition all_down : Faults :=
  {| redis_down := true; cache_session_down := true;
     select_down := true; upsert_down := true |}.

Definition postgres_settings : Settings :=
  {| cache_backend := "postgres"; redis_url := None; nearby_cache_ttl_seconds := 900 |}.


Definition before : list reply := [Found [pa; pb]].
Definition after : list reply := [Found [pa']].
Definition replies : list reply := before ++ Failed :: after.

(** 40.7128 and 40.7131 round to 40.713. *)
Definition lat_40_7128 : coord := Finite (407128 # 10000).
Definition lat_40_7131 : coord := Finite (407131 # 10000).

(** What [provider_empty] and [provider_up] make the default search
    return. *)
Definition empty_meta : meta :=
  {| requests_made := 15; max_requests := 15; raw_places := 0;
     unique_places := 0; truncated := false |}.


Definition request : Main.NearbySearchRequest :=
  {| Main.location_lat := Finite (407128 # 10000);
     Main.location_lng := Finite (-740060 # 10000);
     Main.radius := 1500;
     Main.max_results := 300;
     Main.included_types := None |}.

Definition key : string := "nearby:40.713:-74.006:1500:".

Definition world_down : World := world provider_down no_faults.
Definition world_empty : World := world provider_empty no_faults.
Definition world_up : World := world provider_up no_faults.
Definition world_all_down : World := world provider_up all_down.
Definition world_malformed : World := world provider_malformed no_faults.

(** Two parsed records, the rows their upsert into the empty table
    returns, and the world it leaves. *)
Definition data : list Db.restaurant_data := restaurant_data_of 0 <$> [pa; pb].
Definition rows : list Restaurant :=
  [ RestaurantRow 0 "ChIJa" pa 0 0; RestaurantRow 1 "ChIJb" pb 0 0 ].
Definition stored : World := (Db.upsert_restaurants data world_up).2.

(** The same places fetched again, five microseconds later. *)
Definition data_again : list Db.restaurant_data := restaurant_data_of 5 <$> [pa'; pb].

(** A table of one cache row written at time 0 for 900 seconds. *)
Definition cached : World := (PostgresCache.set key ["ChIJa"; "ChIJb"] 900 world_up).2.

(** The same table 901 seconds later. *)
Definition cache_expired : World := later (seconds 901) no_faults provider_up cached.



(** A place as the provider sends it, and what it is parsed into at
    time 0. *)
Definition payload : Payload.object :=
  [ ("id", Payload.JStr "ChIJa");
    ("displayName", Payload.JObj [("text", Payload.JStr "A")]);
    ("location", Payload.JObj [("latitude", Payload.JNum (407128 # 10000));
                               ("longitude", Payload.JNum (-740060 # 10000))]);
    ("priceLevel", Payload.JStr "PRICE_LEVEL_MODERATE") ].

Definition parsed : Payload.restaurant_dict :=
  {| Payload.google_place_id := Payload.JStr "ChIJa";
     Payload.name := Payload.JStr "A";
     Payload.formatted_address := Payload.JNull;
     Payload.lat := Payload.JNum (407128 # 10000);
     Payload.lng := Payload.JNum (-740060 # 10000);
     Payload.primary_type := Payload.JNull;
     Payload.types := Payload.JArr [];
     Payload.rating := Payload.JNull;
     Payload.user_rating_count := Payload.JNull;
     Payload.price_level := Some 2;
     Payload.phone := Payload.JNull;
     Payload.website := Payload.JNull;
     Payload.provider_payload := payload;
     Payload.last_fetched_at := 0 |}.
End Sample.

(** * Properties *)

Local Close Scope string_scope.

(** ** The merge of the provider client *)

Section Merge.
Import GooglePlaces.

Implicit Types (d : pydict) (ps raw : list place) (pss : list (list place))
  (seen : list string) (i : string) (p : place).

Lemma fetch_group_succeeded ps : fetch_group (succeeded ps) = records ps.
Proof. reflexivity. Qed.

(** [search_nearby] is the fan-out over the answers to its groups. *)
Lemma search_nearby_fan_out (api : provider) lat lng radius included_types max_results :
  search_nearby api lat lng radius included_types max_results
  = fan_out (api lat lng radius <$> type_groups included_types) max_results.
Proof. reflexivity. Qed.

Lemma dict_setitem_fresh i p d : i ∉ d.*1 → dict_setitem i p d = d ++ [(i, p)].
Proof.
  induction d as [|[k v] d IH]; simpl; intros Hi; [done|].
  apply not_elem_of_cons in Hi as [Hne Hi].
  rewrite bool_decide_false by congruence.
  by rewrite IH.
Qed.

Lemma first_seen_ext seen seen' ps :
  (∀ i, i ∈ seen ↔ i ∈ seen') → first_seen seen ps = first_seen seen' ps.
Proof.
  revert seen seen'. induction ps as [|p ps IH]; intros seen seen' Heq; simpl; [done|].
  destruct (truthy_id (place_id p)) as [i|]; [|by apply IH].
  rewrite (bool_decide_ext _ _ (Heq i)).
  case_bool_decide; [by apply IH|].
  f_equal. apply IH. intros j. rewrite !elem_of_cons. by rewrite Heq.
Qed.

Lemma first_seen_app seen ps ps' :
  first_seen seen (ps ++ ps')
  = first_seen seen ps ++ first_seen (seen ++ (first_seen seen ps).*1) ps'.
Proof.
  revert seen. induction ps as [|p ps IH]; intros seen; simpl.
  { by rewrite app_nil_r. }
  destruct (truthy_id (place_id p)) as [i|]; [|by apply IH].
  case_bool_decide; [by apply IH|].
  simpl. f_equal. rewrite IH. f_equal. apply first_seen_ext.
  intros j. simpl. set_solver.
Qed.

Lemma merge_places_records d ps :
  merge_places d (Obj <$> ps) = Return (d ++ first_seen d.*1 ps).
Proof.
  revert d. induction ps as [|p ps IH]; intros d; simpl.
  { by rewrite app_nil_r. }
  destruct (truthy_id (place_id p)) as [i|]; simpl; [|by apply IH].
  unfold dict_contains. case_bool_decide as Hin; simpl; [by apply IH|].
  rewrite dict_setitem_fresh, IH by done.
  rewrite <-app_assoc. simpl. do 3 f_equal. apply first_seen_ext.
  intros j. rewrite fmap_app, elem_of_app, elem_of_cons. simpl. set_solver.
Qed.

Lemma merge_results_records d n pss :
  merge_results (d, n) (records <$> pss)
  = Return (d ++ first_seen d.*1 (concat pss), n + Z.of_nat (length (concat pss))).
Proof.
  revert d n. induction pss as [|ps pss IH]; intros d n; simpl.
  { by rewrite app_nil_r, Z.add_0_r. }
  rewrite merge_places_records. simpl. rewrite IH.
  rewrite first_seen_app, <-app_assoc, fmap_app, length_app, length_fmap.
  do 2 f_equal. lia.
Qed.

(** The merge returns only on well-formed group results. *)
Lemma merge_places_returns d l d' :
  merge_places d l = Return d' → ∃ ps, l = Obj <$> ps.
Proof.
  revert d. induction l as [|e l IH]; intros d; simpl.
  { by exists []. }
  destruct e as [p| |]; simpl; [|done..].
  destruct (merge_place d (Obj p)) as [d1|] eqn:E; simpl in *; [|by rewrite E].
  rewrite E. simpl. intros [ps ->]%IH. by exists (p :: ps).
Qed.

Lemma merge_results_returns st results st' :
  merge_results st results = Return st' → ∃ pss, results = records <$> pss.
Proof.
  revert st. induction results as [|v results IH]; intros st; simpl.
  { by exists []. }
  destruct v as [l|]; simpl; [|done].
  destruct (merge_places st.1 l) as [d1|] eqn:E; simpl; [|done].
  apply merge_places_returns in E as [ps ->].
  intros [pss ->]%IH. by exists (ps :: pss).
Qed.

(** What [first_seen] keeps. *)
Lemma first_seen_elem seen ps i p :
  (i, p) ∈ first_seen seen ps →
  truthy_id (place_id p) = Some i ∧ (i ∉ seen) ∧ p ∈ ps.
Proof.
  revert seen. induction ps as [|q ps IH]; intros seen; simpl.
  { by intros ?%elem_of_nil. }
  destruct (truthy_id (place_id q)) as [j|] eqn:E.
  - case_bool_decide as Hj.
    + intros (? & ? & ?)%IH. set_solver.
    + intros [[= -> ->]|(? & ? & ?)%IH]%elem_of_cons; set_solver.
  - intros (? & ? & ?)%IH. set_solver.
Qed.

Lemma truthy_id_Some o i : truthy_id o = Some i ↔ o = Some i ∧ i ≠ ""%string.
Proof.
  unfold truthy_id. destruct o as [s|]; [|naive_solver].
  case_bool_decide; naive_solver.
Qed.

Lemma first_seen_NoDup seen ps : NoDup (first_seen seen ps).*1.
Proof.
  revert seen. induction ps as [|q ps IH]; intros seen; simpl; [constructor|].
  destruct (truthy_id (place_id q)) as [j|]; [|done].
  case_bool_decide; [done|]. simpl. constructor; [|done].
  intros ([k p] & -> & Hin)%list_elem_of_fmap. simpl in *.
  apply first_seen_elem in Hin. set_solver.
Qed.

Lemma first_seen_first seen ps i p :
  (i, p) ∈ first_seen seen ps → first_with_id i ps = Some p.
Proof.
  unfold first_with_id.
  revert seen. induction ps as [|q ps IH]; intros seen; simpl.
  { by intros ?%elem_of_nil. }
  destruct (truthy_id (place_id q)) as [j|] eqn:E.
  - apply truthy_id_Some in E as [E ?].
    case_bool_decide as Hj.
    + intros Hin. pose proof (first_seen_elem _ _ _ _ Hin) as (? & ? & ?).
      rewrite bool_decide_false by (rewrite E; set_solver). by eapply IH.
    + intros [[= -> ->]|Hin]%elem_of_cons.
      * by rewrite bool_decide_true.
      * pose proof (first_seen_elem _ _ _ _ Hin) as (? & ? & ?).
        rewrite bool_decide_false by (rewrite E; set_solver). by eapply IH.
  - intros Hin. pose proof (first_seen_elem _ _ _ _ Hin) as (Ht & ? & ?).
    apply truthy_id_Some in Ht as [? ?].
    rewrite bool_decide_false; [by eapply IH|].
    intros Hq. rewrite Hq in E. simpl in E. by rewrite bool_decide_false in E.
Qed.

Lemma first_seen_complete seen ps i p :
  p ∈ ps → truthy_id (place_id p) = Some i → i ∉ seen →
  i ∈ (first_seen seen ps).*1.
Proof.
  revert seen. induction ps as [|q ps IH]; intros seen; simpl.
  { by intros ?%elem_of_nil. }
  intros [->|Hin]%elem_of_cons Ht Hi.
  - rewrite Ht. rewrite bool_decide_false by done. simpl. set_solver.
  - destruct (truthy_id (place_id q)) as [j|] eqn:E; [|by eapply IH].
    case_bool_decide; [by eapply IH|].
    simpl. destruct (decide (i = j)) as [->|]; [set_solver|].
    apply elem_of_cons. right. eapply IH; [done..|set_solver].
Qed.

Lemma first_seen_sublist seen ps : (first_seen seen ps).*2 `sublist_of` ps.
Proof.
  revert seen. induction ps as [|q ps IH]; intros seen; simpl; [done|].
  destruct (truthy_id (place_id q)) as [j|]; [|by apply sublist_cons].
  case_bool_decide; [by apply sublist_cons|]. simpl. by apply sublist_skip.
Qed.

End Merge.

(** ** The fan-out on well-formed replies *)

Section FanOut.
Import GooglePlaces.

Implicit Types (replies before after : list reply) (ts : list transport)
  (max_results : Z) (completion : list nat).

Lemma fetch_group_reply (r : reply) : fetch_group (transport_of r) = records (found r).
Proof. by destruct r. Qed.

(** The search returns on every list of well-formed replies, with the
    deduplicated records cut at [max_results] and the counts of the
    merge. *)
Lemma fan_out_replies replies max_results :
  fan_out (transport_of <$> replies) max_results
  = Return (slice_to max_results (deduplicated replies),
            {| requests_made := Z.of_nat (length replies);
               max_requests := Z.of_nat (length replies);
               raw_places := Z.of_nat (length (raw_records replies));
               unique_places := Z.of_nat (length (deduplicated replies));
               truncated := Z.of_nat (length (deduplicated replies)) >? max_results |}).
Proof.
  unfold fan_out, process_results, deduplicated, raw_records.
  rewrite <-list_fmap_compose.
  rewrite (list_fmap_ext _ (records ∘ found) replies) by (intros; apply fetch_group_reply).
  rewrite list_fmap_compose, merge_results_records. simpl.
  by rewrite !length_fmap.
Qed.



Lemma slice_to_sublist {A} (m : Z) (l : list A) : slice_to m l `sublist_of` l.
Proof. unfold slice_to. destruct (m <? 0); apply sublist_take. Qed.

Lemma slice_to_all {A} (m : Z) (l : list A) :
  Z.of_nat (length l) ≤ m → slice_to m l = l.
Proof.
  intros H. unfold slice_to. rewrite (proj2 (Z.ltb_ge m 0)) by lia.
  apply take_ge. lia.
Qed.

Lemma slice_to_take {A} (m : Z) (l : list A) :
  0 ≤ m → slice_to m l = take (Z.to_nat m) l.
Proof. intros H. unfold slice_to. by rewrite (proj2 (Z.ltb_ge m 0)) by lia. Qed.

(** *** The barrier *)

Lemma settle_length {A} (tasks : list A) slots i :
  length (settle tasks slots i) = length slots.
Proof. unfold settle. destruct (tasks !! i); [apply length_insert|done]. Qed.

Lemma settle_fold_lookup {A} (tasks : list A) completion slots j :
  length slots = length tasks →
  foldl (settle tasks) slots completion !! j
  = if bool_decide (j ∈ completion) then Some <$> tasks !! j else slots !! j.
Proof.
  revert slots. induction completion as [|i c IH]; intros slots Hlen; cbn [foldl].
  { rewrite bool_decide_false; [done|]. by intros ?%elem_of_nil. }
  rewrite IH by (by rewrite settle_length).
  destruct (decide (j ∈ c)) as [Hj|Hj].
  { by rewrite !bool_decide_true by set_solver. }
  rewrite (bool_decide_false (j ∈ c)) by done.
  destruct (decide (j = i)) as [->|Hne].
  - rewrite bool_decide_true by set_solver. unfold settle.
    destruct (tasks !! i) as [r|] eqn:E; simpl.
    + apply list_lookup_insert_eq. apply lookup_lt_Some in E. lia.
    + apply lookup_ge_None. apply lookup_ge_None in E. lia.
  - rewrite bool_decide_false by set_solver. unfold settle.
    destruct (tasks !! i); [|done]. by apply list_lookup_insert_ne.
Qed.

Lemma settles_all_spec n completion :
  settles_all n completion = true ↔ ∀ i, (i < n)%nat → i ∈ completion.
Proof.
  unfold settles_all. rewrite forallb_forall. split.
  - intros H i Hi. eapply bool_decide_eq_true, H, in_seq. lia.
  - intros H i Hi%in_seq. apply bool_decide_eq_true, H. lia.
Qed.

(** Once every task has settled, [gather] returns the results in the
    order of the tasks, whatever the completion order was. *)
Lemma gather_settled {A} (tasks : list A) completion :
  settles_all (length tasks) completion = true → gather completion tasks = Some tasks.
Proof.
  intros H0. pose proof (proj1 (settles_all_spec _ _) H0) as H. unfold gather.
  assert (foldl (settle tasks) (replicate (length tasks) None) completion
          = Some <$> tasks) as ->.
  { apply list_eq. intros j.
    rewrite settle_fold_lookup by apply length_replicate.
    rewrite list_lookup_fmap.
    destruct (decide (j < length tasks)%nat) as [Hj|Hj].
    - by rewrite bool_decide_true by auto.
    - rewrite (proj2 (lookup_ge_None tasks j)) by lia. simpl.
      case_bool_decide; [done|]. apply lookup_ge_None. rewrite length_replicate. lia. }
  apply mapM_fmap_Forall_Some. by apply Forall_forall.
Qed.


Lemma fan_out_scheduled_settled ts completion max_results :
  settles_all (length ts) completion = true →
  fan_out_scheduled completion ts max_results = Some (fan_out ts max_results).
Proof.
  intros H. unfold fan_out_scheduled.
  rewrite gather_settled by (by rewrite length_fmap). done.
Qed.

End FanOut.

(** ** Deduplication, truncation, partial failure and determinism *)

Section Search.
Import GooglePlaces.

Implicit Types (replies before after : list reply) (ts : list transport)
  (max_results : Z) (completion : list nat) (p : place) (i : string).

Lemma first_seen_place_ids seen (ps : list place) :
  place_id <$> (first_seen seen ps).*2 = Some <$> (first_seen seen ps).*1.
Proof.
  assert (∀ l : list (string * place),
             (∀ k p, (k, p) ∈ l → place_id p = Some k) →
             place_id <$> l.*2 = Some <$> l.*1) as Hl.
  { induction l as [|[k q] l IH]; intros H; simpl; [done|].
    rewrite (H k q) by left. f_equal. apply IH. intros. apply H. by right. }
  apply Hl. intros k q (Ht & _)%first_seen_elem.
  by apply truthy_id_Some in Ht as [? _].
Qed.

Lemma deduplicated_NoDup replies : NoDup (place_id <$> deduplicated replies).
Proof.
  unfold deduplicated. rewrite first_seen_place_ids.
  apply (NoDup_fmap_2 Some), first_seen_NoDup.
Qed.

Lemma deduplicated_elem replies p :
  p ∈ deduplicated replies →
  ∃ i, place_id p = Some i ∧ i ≠ ""%string
       ∧ first_with_id i (raw_records replies) = Some p.
Proof.
  unfold deduplicated. intros ([i q] & -> & Hin)%list_elem_of_fmap. simpl.
  pose proof (first_seen_elem _ _ _ _ Hin) as (Ht & _ & _).
  apply truthy_id_Some in Ht as [? ?].
  exists i. eauto using first_seen_first.
Qed.

Lemma occurrences_none i (ps : list place) :
  Some i ∉ place_id <$> ps → occurrences i ps = 0%nat.
Proof.
  unfold occurrences. induction ps as [|q ps IH]; [done|].
  rewrite fmap_cons, not_elem_of_cons. intros [Hq Hps].
  rewrite filter_cons, decide_False by congruence. by apply IH.
Qed.

Lemma occurrences_once i (ps : list place) p :
  NoDup (place_id <$> ps) → p ∈ ps → place_id p = Some i → occurrences i ps = 1%nat.
Proof.
  induction ps as [|q ps IH].
  { by intros _ ?%elem_of_nil. }
  rewrite fmap_cons. intros [Hq Hnd]%NoDup_cons Hin Hp.
  unfold occurrences. rewrite filter_cons.
  destruct (decide (place_id q = Some i)) as [Hqi|Hqi].
  - simpl. f_equal. apply occurrences_none. by rewrite <-Hqi.
  - apply elem_of_cons in Hin as [->|Hin]; [done|]. by eapply IH.
Qed.

(** C3: on every set of group replies, whatever ids overlap, the search
    returns the deduplicated records in merge order, cut at
    [max_results]; no provider id occurs twice in the returned sequence;
    each returned record is the first record of the raw results that
    carries its id (later duplicates are dropped); the returned sequence
    keeps the order of the raw results; and when nothing was cut off,
    every provider id of the raw results occurs exactly once. *)
Theorem search_deduplicates_first_seen replies max_results :
  ∃ places m,
    fan_out (transport_of <$> replies) max_results = Return (places, m)
    ∧ places = slice_to max_results (deduplicated replies)
    ∧ NoDup (place_id <$> places)
    ∧ (∀ i, occurrences i places ≤ 1)%nat
    ∧ (∀ p, p ∈ places →
         ∃ i, place_id p = Some i ∧ i ≠ ""%string
              ∧ first_with_id i (raw_records replies) = Some p)
    ∧ places `sublist_of` raw_records replies
    ∧ (truncated m = false →
       ∀ p i, p ∈ raw_records replies → place_id p = Some i → i ≠ ""%string →
              occurrences i places = 1%nat).
Proof.
  eexists _, _. split; [apply fan_out_replies|]. split; [done|].
  assert (NoDup (place_id <$> slice_to max_results (deduplicated replies))) as Hnd.
  { eapply sublist_NoDup; [apply deduplicated_NoDup|].
    apply fmap_sublist, slice_to_sublist. }
  split; [done|]. split; [|split; [|split]].
  - intros i.
    destruct (decide (Some i ∈ place_id <$> slice_to max_results (deduplicated replies)))
      as [(q & Hq & Hin)%list_elem_of_fmap|Hno].
    + erewrite occurrences_once; eauto.
    + rewrite occurrences_none by done. lia.
  - intros p Hp. apply deduplicated_elem.
    eapply elem_of_sublist; [done|apply slice_to_sublist].
  - etrans; [apply slice_to_sublist|]. apply first_seen_sublist.
  - simpl. intros Htr p i Hp Hid Hne.
    rewrite slice_to_all by (rewrite Z.gtb_ltb in Htr; apply Z.ltb_ge in Htr; lia).
    assert (i ∈ (first_seen [] (raw_records replies)).*1) as Hi.
    { eapply first_seen_complete; [done| |set_solver].
      apply truthy_id_Some. done. }
    apply list_elem_of_fmap in Hi as ([k q] & -> & Hin). simpl.
    pose proof (first_seen_elem _ _ _ _ Hin) as (Ht & _ & _).
    apply truthy_id_Some in Ht as [? _].
    eapply occurrences_once; [apply deduplicated_NoDup| |done].
    unfold deduplicated. apply list_elem_of_fmap. by exists (k, q).
Qed.

(** C4: for a result bound that is not negative (the request model takes
    1 to 300): when the deduplicated records are more than [max_results],
    the search returns exactly the first [max_results] of them in merge
    order and reports [truncated = true]; otherwise it returns all of them
    and reports [truncated = false]. *)
Theorem search_truncates_to_max_results replies max_results :
  0 ≤ max_results →
  ∃ places m,
    fan_out (transport_of <$> replies) max_results = Return (places, m)
    ∧ (Z.of_nat (length (deduplicated replies)) > max_results →
       places = take (Z.to_nat max_results) (deduplicated replies)
       ∧ Z.of_nat (length places) = max_results
       ∧ truncated m = true)
    ∧ (Z.of_nat (length (deduplicated replies)) ≤ max_results →
       places = deduplicated replies ∧ truncated m = false).
Proof.
  intros Hmax. eexists _, _. split; [apply fan_out_replies|]. simpl. split.
  - intros Hgt. rewrite slice_to_take by done.
    split; [done|]. split; [rewrite length_take_le; lia|].
    rewrite Z.gtb_ltb. apply Z.ltb_lt. lia.
  - intros Hle. rewrite slice_to_all by done. split; [done|].
    rewrite Z.gtb_ltb. apply Z.ltb_ge. lia.
Qed.


(** C10: the result of the fan-out is a function of the per-group
    responses alone: every completion order in which all the requests
    settle gives the result of merging the responses in group order, so
    two runs on the same responses return the same sequence and the same
    metadata. *)
Theorem fan_out_independent_of_completion_order ts max_results completion completion' :
  settles_all (length ts) completion = true →
  settles_all (length ts) completion' = true →
  fan_out_scheduled completion ts max_results
    = fan_out_scheduled completion' ts max_results
  ∧ fan_out_scheduled completion ts max_results = Some (fan_out ts max_results).
Proof.
  intros H1 H2. by rewrite !fan_out_scheduled_settled.
Qed.

End Search.

(** ** The cache key *)

Section Key.
Import CacheKey.

Global Instance str_le_total : Total str_le.
Proof. intros a b. apply String.leb_total. Qed.

Global Instance str_le_antisymm : AntiSymm (=) str_le.
Proof. intros a b. apply String.leb_antisym. Qed.

Global Instance str_le_trans : Transitive str_le.
Proof.
  unfold str_le, String.leb. intros s1.
  induction s1 as [|c1 s1 IH]; intros [|c2 s2] [|c3 s3]; simpl; try done.
  unfold Ascii.compare.
  destruct (N.compare_spec (N_of_ascii c1) (N_of_ascii c2)) as [E12|L12|G12];
    destruct (N.compare_spec (N_of_ascii c2) (N_of_ascii c3)) as [E23|L23|G23];
    destruct (N.compare_spec (N_of_ascii c1) (N_of_ascii c3)) as [E13|L13|G13];
    try done; try lia.
  apply IH.
Qed.

(** The order in which the categories are given does not matter. *)
Lemma sorted_permutation (types types' : list string) :
  types ≡ₚ types' → sorted types = sorted types'.
Proof.
  intros Hp. unfold sorted.
  apply (Sorted_unique str_le); [apply Sorted_merge_sort, _..|].
  by rewrite !merge_sort_Permutation.
Qed.

(** [round] looks at the input only through its sign, its first three
    decimals and the side of half a thousandth on which the rest lies. *)
Lemma round3_decimals (c : coord) :
  round3 c = ((first_three_decimals c).1,
              round_up (first_three_decimals c).2 (half_side c)).
Proof.
  destruct c as [|[n d]]; [done|].
  unfold round3, first_three_decimals, half_side, round_up, round_half_even.
  cbn [fst snd Qnum Qden]. f_equal.
  pose proof (Pos2Z.is_pos d) as Hd.
  destruct (Z.ltb_spec n 0) as [Hn|Hn].
  - rewrite (Z.abs_neq n) by lia.
    pose proof (Z.div_mod (- n * 1000) (Z.pos d) ltac:(lia)) as Hdm.
    pose proof (Z.mod_pos_bound (- n * 1000) (Z.pos d) Hd) as Hb.
    pose proof (Z.div_mod (n * 1000) (Z.pos d) ltac:(lia)) as Hdm'.
    pose proof (Z.mod_pos_bound (n * 1000) (Z.pos d) Hd) as Hb'.
    set (k := - n * 1000 / Z.pos d) in *. set (f := (- n * 1000) mod Z.pos d) in *.
    set (k' := n * 1000 / Z.pos d) in *. set (f' := (n * 1000) mod Z.pos d) in *.
    clearbody k f k' f'.
    assert (Z.pos d * (k + k') = - (f + f')) as Hsum by lia.
    assert (k + k' = 0 ∨ k + k' = -1) as Hk by nia.
    assert (0 ≤ k) by nia.
    destruct (decide (f = 0)) as [Hf|Hf].
    + assert (f' = 0 ∧ k' = - k) as [-> ->]
        by (destruct Hk as [Hk|Hk]; rewrite Hk in Hsum; lia).
      subst f. destruct (Z.compare_spec (2 * 0) (Z.pos d)); lia.
    + assert (f' = Z.pos d - f ∧ k' = - k - 1) as [-> ->]
        by (destruct Hk as [Hk|Hk]; rewrite Hk in Hsum; lia).
      replace (Z.even (- k - 1)) with (negb (Z.even k))
        by (rewrite Z.even_sub, Z.even_opp; simpl; by destruct (Z.even k)).
      destruct (Z.compare_spec (2 * (Z.pos d - f)) (Z.pos d));
        destruct (Z.compare_spec (2 * f) (Z.pos d)); try lia;
        destruct (Z.even k); simpl; lia.
  - rewrite (Z.abs_eq n) by lia.
    assert (0 ≤ n * 1000 / Z.pos d) by (apply Z.div_pos; lia).
    destruct (Z.compare_spec (2 * ((n * 1000) mod Z.pos d)) (Z.pos d)); try lia.
    destruct (Z.even _); lia.
Qed.

(** C7, as stated, fails: 40.500244140625 and 40.500732421875 differ only
    from the fourth decimal on, and all other fields are equal, yet the keys
    differ, because the coordinates are rounded, not cut. *)
Lemma cache_key_differs_beyond_third_decimal :
  first_three_decimals Sample.lat_40_5002 = first_three_decimals Sample.lat_40_5007
  ∧ generate_cache_key Sample.lat_40_5002 Sample.lng_74_006 1500 []
    = "nearby:40.5:-74.006:1500:"%string
  ∧ generate_cache_key Sample.lat_40_5007 Sample.lng_74_006 1500 []
    = "nearby:40.501:-74.006:1500:"%string
  ∧ generate_cache_key Sample.lat_40_5002 Sample.lng_74_006 1500 []
    ≠ generate_cache_key Sample.lat_40_5007 Sample.lng_74_006 1500 [].
Proof. repeat split; try reflexivity. vm_compute. discriminate. Qed.

(** Equal rounded coordinates and categories that differ only in their
    order give equal keys. *)
Lemma cache_key_same_rounding_any_order
    (lat1 lng1 lat2 lng2 : coord) (radius : Z) (types1 types2 : list string) :
  round3 lat1 = round3 lat2 →
  round3 lng1 = round3 lng2 →
  types1 ≡ₚ types2 →
  generate_cache_key lat1 lng1 radius types1 = generate_cache_key lat2 lng2 radius types2.
Proof.
  intros Hlat Hlng Hp. unfold generate_cache_key.
  by rewrite Hlat, Hlng, (sorted_permutation _ _ Hp).
Qed.

(** C7, amended: two queries whose latitudes have the same sign and the
    same first three decimals, with what follows the third decimal on the
    same side of half a thousandth (below it in both, on it in both, or
    above it in both), whose longitudes agree in the same way, with the
    same radius, and whose categories differ only in their order, have
    the same key. *)
Theorem cache_key_same_decimals_any_order
    (lat1 lng1 lat2 lng2 : coord) (radius : Z) (types1 types2 : list string) :
  first_three_decimals lat1 = first_three_decimals lat2 →
  half_side lat1 = half_side lat2 →
  first_three_decimals lng1 = first_three_decimals lng2 →
  half_side lng1 = half_side lng2 →
  types1 ≡ₚ types2 →
  generate_cache_key lat1 lng1 radius types1 = generate_cache_key lat2 lng2 radius types2.
Proof.
  intros Hlat Hlat' Hlng Hlng' Hp.
  apply cache_key_same_rounding_any_order; [| |done].
  - by rewrite !round3_decimals, Hlat, Hlat'.
  - by rewrite !round3_decimals, Hlng, Hlng'.
Qed.

End Key.

(** ** The cache backends *)

Section Backends.

Implicit Types (key : string) (ids : list string) (w : World).





Ltac run_async :=
  unfold RedisCache.get, RedisCache.set, RedisCache.delete, try_except, log, modify,
    raises, mbind, mret, Async_bind, Async_ret, bind, ret in *; simpl in *.

(** No method of [RedisCache] lets an exception out. *)
Lemma redis_get_returns (conn : Async redis_client) key w :
  ∃ v, (RedisCache.get conn key w).1 = Return v.
Proof.
  run_async. destruct (conn _) as [[cl|e] w1]; simpl; [|by eexists].
  destruct (client_get cl key w1) as [[[l|]|e] w2]; simpl; by eexists.
Qed.

Lemma redis_set_returns (conn : Async redis_client) key ids ttl w :
  (RedisCache.set conn key ids ttl w).1 = Return tt.
Proof.
  run_async. destruct (conn _) as [[cl|e] w1]; simpl; [|done].
  by destruct (client_setex cl key ttl ids w1) as [[[]|e] w2].
Qed.

Lemma redis_delete_returns (conn : Async redis_client) key w :
  ∃ b, (RedisCache.delete conn key w).1 = Return b.
Proof.
  run_async. destruct (conn _) as [[cl|e] w1]; simpl; [|by eexists].
  destruct (client_delete cl key w1) as [[n|e] w2]; simpl; by eexists.
Qed.

(** C9: for every client of the Redis backend, whatever it does: when
    getting the client or the command itself raises during [get], [set] or
    [delete], the method still returns: [get] returns nothing, [set]
    returns normally, [delete] returns false; no method ever raises. *)
Theorem redis_cache_absorbs_backend_errors
    (conn : Async redis_client) key ids (ttl : Z) w :
  (raises (client ← conn; client_get client key) (add_event (CacheGet key) w) →
   (RedisCache.get conn key w).1 = Return None)
  ∧ (raises (client ← conn; client_setex client key ttl ids)
       (add_event (CacheSet key ids ttl) w) →
     (RedisCache.set conn key ids ttl w).1 = Return tt)
  ∧ (raises (client ← conn; client_delete client key) w →
     (RedisCache.delete conn key w).1 = Return false)
  ∧ (∀ e, (RedisCache.get conn key w).1 ≠ Raise e)
  ∧ (∀ e, (RedisCache.set conn key ids ttl w).1 ≠ Raise e)
  ∧ (∀ e, (RedisCache.delete conn key w).1 ≠ Raise e).
Proof.
  repeat split.
  - intros [e He]. run_async. destruct (conn _) as [[cl|e'] w1]; simpl in *; [|done].
    by destruct (client_get cl key w1) as [[[l|]|e'] w2].
  - intros _. apply redis_set_returns.
  - intros [e He]. run_async. destruct (conn _) as [[cl|e'] w1]; simpl in *; [|done].
    by destruct (client_delete cl key w1) as [[n|e'] w2].
  - intros e. destruct (redis_get_returns conn key w) as [v ->]. done.
  - intros e. by rewrite redis_set_returns.
  - intros e. destruct (redis_delete_returns conn key w) as [v ->]. done.
Qed.

End Backends.

(** ** The endpoint *)

Section Endpoint.

Implicit Types (settings : Settings) (cache : CacheBackend)
  (request : Main.NearbySearchRequest) (x_skip_cache : option string) (w : World).

Ltac run1 :=
  unfold PostgresCache.get, PostgresCache.set, PostgresCache.session,
    RedisCache.get, RedisCache.set, RedisCache.connect, RedisCache.command,
    try_except, lift, step, log, modify, ask, raise,
    mbind, mret, Async_bind, Async_ret, bind, ret in *; simpl in *.
Ltac run := do 2 run1.

(** A cache lookup leaves the world as it is, but for the record of the
    call. *)
Lemma cache_get_world cache key w :
  (cache_get cache key w).2 = add_event (CacheGet key) w.
Proof.
  destruct cache; unfold cache_get; run.
  - destruct (cache_session_down (faults w)); [done|]. simpl.
    destruct (nearby_query_cache w !! key) as [entry|]; [|done].
    by destruct (now w <? expires_at entry).
  - destruct (redis_down (faults w)); [done|]. simpl.
    by destruct (RedisCache.live _ key).
Qed.

(** The endpoint from the provider on. *)
Lemma endpoint_miss settings cache request x_skip_cache w :
  get_cache settings = Return cache →
  reaches_provider cache request x_skip_cache w →
  Main.search_nearby_restaurants settings request x_skip_cache w
  = match provider_result request w with
    | Raise _ =>
        (Raise (HTTPException 503 "Restaurant search temporarily unavailable"),
         asked request x_skip_cache w)
    | Return ([], m) => (Return (empty_response request m), asked request x_skip_cache w)
    | Return (places, m) =>
        store_and_cache settings cache request places m (asked request x_skip_cache w)
    end.
Proof.
  intros Hc Hreach.
  unfold Main.search_nearby_restaurants, asked, lookup_events, provider_result.
  fold (key_of request). rewrite Hc.
  destruct (decide (x_skip_cache = Some "true"%string)) as [Hs|Hs].
  - rewrite !bool_decide_true by done. run.
    destruct (GooglePlaces.search_nearby _ _ _ _ _ _) as [[[|p ps] m]|e]; done.
  - rewrite !bool_decide_false by done.
    destruct Hreach as [?|Hget]; [done|].
    pose proof (cache_get_world cache (key_of request) w) as Hw.
    unfold mbind at 1, Async_bind, bind, lift.
    unfold mbind at 1, Async_bind, bind.
    unfold mbind at 1, Async_bind, bind.
    destruct (cache_get cache (key_of request) w) as [o w1]. simpl in *. subst o w1.
    run.
    destruct (GooglePlaces.search_nearby _ _ _ _ _ _) as [[[|p ps] m]|e]; done.
Qed.

(** Recording calls changes nothing but the trace. *)
Lemma add_events_trace evs w : trace (add_events evs w) = trace w ++ evs.
Proof.
  unfold add_events. revert w. induction evs as [|e evs IH]; intros w; simpl.
  { by rewrite app_nil_r. }
  rewrite IH. simpl. by rewrite <-app_assoc.
Qed.

Lemma add_events_state evs w :
  now (add_events evs w) = now w
  ∧ restaurants (add_events evs w) = restaurants w
  ∧ nearby_query_cache (add_events evs w) = nearby_query_cache w
  ∧ redis_keys (add_events evs w) = redis_keys w
  ∧ next_uuid (add_events evs w) = next_uuid w
  ∧ places_api (add_events evs w) = places_api w
  ∧ faults (add_events evs w) = faults w.
Proof.
  unfold add_events. revert w. induction evs as [|e evs IH]; intros w; simpl; [done|].
  destruct (IH (add_event e w)) as (-> & -> & -> & -> & -> & -> & ->). done.
Qed.

Lemma asked_state request x_skip_cache w :
  now (asked request x_skip_cache w) = now w
  ∧ restaurants (asked request x_skip_cache w) = restaurants w
  ∧ nearby_query_cache (asked request x_skip_cache w) = nearby_query_cache w
  ∧ redis_keys (asked request x_skip_cache w) = redis_keys w
  ∧ next_uuid (asked request x_skip_cache w) = next_uuid w
  ∧ places_api (asked request x_skip_cache w) = places_api w
  ∧ faults (asked request x_skip_cache w) = faults w.
Proof. unfold asked. simpl. apply add_events_state. Qed.

Lemma asked_trace request x_skip_cache w :
  trace (asked request x_skip_cache w)
  = trace w ++ lookup_events request x_skip_cache ++ [ProviderSearch].
Proof. unfold asked. simpl. by rewrite add_events_trace, <-app_assoc. Qed.

(** What a reader may see in the cache depends on the tables and the
    clock only. *)
Lemma cache_live_ext cache key w w' :
  now w' = now w → nearby_query_cache w' = nearby_query_cache w →
  redis_keys w' = redis_keys w → cache_live cache key w' = cache_live cache key w.
Proof.
  intros Hn Hp Hr. destruct cache; unfold cache_live, RedisCache.live.
  - by rewrite Hn, Hp.
  - by rewrite Hn, Hr.
Qed.

(** Nothing appears in the cache by time passing. *)
Lemma cache_live_later cache key w dt f api :
  0 ≤ dt → cache_live cache key w = None →
  cache_live cache key (later dt f api w) = None.
Proof.
  intros Hdt. destruct cache; unfold cache_live, RedisCache.live; simpl.
  - destruct (nearby_query_cache w !! key) as [entry|]; [|done].
    destruct (Z.ltb_spec (now w) (expires_at entry)); [done|].
    intros _. by rewrite (proj2 (Z.ltb_ge _ _)) by lia.
  - destruct (redis_keys w !! key) as [[v expiry]|]; [|done].
    destruct (Z.leb_spec (now w) expiry); [done|].
    intros _. by rewrite (proj2 (Z.leb_gt _ _)) by lia.
Qed.

(** A lookup returns what a reader may see, or nothing, or fails. *)
Lemma cache_get_live cache key w ids :
  (cache_get cache key w).1 = Return (Some ids) → cache_live cache key w = Some ids.
Proof.
  destruct cache; unfold cache_get, cache_live; run.
  - destruct (cache_session_down (faults w)); [done|]. simpl.
    destruct (nearby_query_cache w !! key) as [entry|]; [|done].
    destruct (now w <? expires_at entry); simpl; [|done]. by intros [= ->].
  - destruct (redis_down (faults w)); [done|]. simpl.
    unfold RedisCache.live. simpl.
    destruct (redis_keys w !! key) as [[v expiry]|]; [|done].
    destruct (now w <=? expiry); simpl; [|done]. by intros [= ->].
Qed.

Lemma cache_get_miss cache key w :
  cache_live cache key w = None →
  (cache = Postgres → cache_session_down (faults w) = false) →
  (cache_get cache key w).1 = Return None.
Proof.
  destruct cache; unfold cache_get, cache_live; run.
  - intros Hl Hup. rewrite Hup by done. simpl.
    destruct (nearby_query_cache w !! key) as [entry|]; [|done].
    by destruct (now w <? expires_at entry).
  - intros Hl _. destruct (redis_down (faults w)); [done|]. simpl.
    unfold RedisCache.live in *. simpl.
    destruct (redis_keys w !! key) as [[v expiry]|]; [|done].
    by destruct (now w <=? expiry).
Qed.

(** *** What the provider client hands to the endpoint *)

Lemma raw_records_all_failed {A} (groups : list A) :
  GooglePlaces.raw_records ((λ _, GooglePlaces.Failed) <$> groups) = [].
Proof. unfold GooglePlaces.raw_records. induction groups; simpl; auto. Qed.

Lemma slice_to_nil {A} (m : Z) : GooglePlaces.slice_to m (@nil A) = [].
Proof. unfold GooglePlaces.slice_to. destruct (m <? 0); apply take_nil. Qed.

(** When every group request fails, the fetch returns no record and raises
    nothing. *)
Lemma provider_result_all_fail request w :
  all_groups_fail request w →
  provider_result request w
  = Return ([], {| GooglePlaces.requests_made :=
                     Z.of_nat (length (GooglePlaces.type_groups (Main.included_types request)));
                   GooglePlaces.max_requests :=
                     Z.of_nat (length (GooglePlaces.type_groups (Main.included_types request)));
                   GooglePlaces.raw_places := 0;
                   GooglePlaces.unique_places := 0;
                   GooglePlaces.truncated := 0 >? Main.max_results request |}).
Proof.
  intros Hall. unfold provider_result, GooglePlaces.search_nearby, GooglePlaces.search_groups.
  rewrite (list_fmap_ext _ (GooglePlaces.transport_of ∘ (λ _, GooglePlaces.Failed))
             (GooglePlaces.type_groups _)) by (intros; apply Hall).
  rewrite list_fmap_compose, fan_out_replies.
  unfold GooglePlaces.deduplicated. rewrite raw_records_all_failed. simpl.
  by rewrite slice_to_nil, length_fmap.
Qed.



(** *** The upsert *)

Lemma update_existing_id gid d tbl t x :
  Db.update_existing gid d tbl = Some (t, x) → google_place_id x = gid.
Proof.
  revert t. induction tbl as [|r tbl IH]; intros t; simpl; [done|].
  case_bool_decide as Hr.
  - by intros [= <- <-].
  - destruct (Db.update_existing gid d tbl) as [[t' x']|]; [|done].
    intros [= <- <-]. by eapply IH.
Qed.

Lemma upsert_rows_ids now rows st :
  google_place_id <$> (Db.upsert_rows now rows st).2 = rows.*1.
Proof.
  revert st. induction rows as [|[gid d] rows IH]; intros st; simpl; [done|].
  destruct (Db.upsert_one now gid d st) as [st1 x] eqn:E1.
  specialize (IH st1). destruct (Db.upsert_rows now rows st1) as [st2 xs]. simpl in *.
  f_equal; [|done].
  unfold Db.upsert_one in E1.
  destruct (Db.update_existing gid d st.1) as [[t x']|] eqn:E.
  - injection E1 as _ <-. by eapply update_existing_id.
  - by injection E1 as _ <-.
Qed.



(** *** Parse, upsert and cache write *)

(** What [parse_google_place] returns when it returns. *)
Lemma parse_google_place_data (now : Z) (place : GooglePlaces.place) d :
  parse_google_place now place = Return d → d = restaurant_data_of now place.
Proof.
  unfold parse_google_place.
  destruct (Payload.parse_google_place _ _); simpl; [|done]. by intros [= <-].
Qed.


(** What the comprehension returns when it returns. *)
Lemma parse_all_data (now : Z) (places : list GooglePlaces.place) data :
  omapM (parse_google_place now) places = Return data →
  data = restaurant_data_of now <$> places.
Proof.
  revert data. induction places as [|p ps IH]; intros data; simpl; [by intros [= <-]|].
  destruct (parse_google_place now p) as [d|e] eqn:Hd; simpl; [|done].
  destruct (omapM _ ps) as [ds|e]; simpl; [|done]. intros [= <-].
  by rewrite (parse_google_place_data _ _ _ Hd), (IH ds eq_refl).
Qed.

(** The second half of the endpoint, step by step: the parse, the upsert,
    the cache write; an exception of any of them becomes a 500. *)
Lemma store_and_cache_run settings cache request places m w :
  store_and_cache settings cache request places m w
  = match omapM (parse_google_place (now w)) places with
    | Raise e =>
        (Raise (HTTPException 500
                  ("Failed to process search results: " ++ exn_name e)%string), w)
    | Return data =>
        match Db.upsert_restaurants data w with
        | (Return rows, w1) =>
            match cache_set cache (key_of request) (google_place_id <$> rows)
                    (nearby_cache_ttl_seconds settings) w1 with
            | (Return _, w2) => (Return (stored_response request rows m), w2)
            | (Raise e, w2) =>
                (Raise (HTTPException 500
                          ("Failed to process search results: " ++ exn_name e)%string), w2)
            end
        | (Raise e, w1) =>
            (Raise (HTTPException 500
                      ("Failed to process search results: " ++ exn_name e)%string), w1)
        end
    end.
Proof.
  unfold store_and_cache, stored_response, try_except, lift, mbind, Async_bind, bind, ask,
    mret, Async_ret, ret, raise.
  destruct (omapM _ places) as [data|e]; [|done].
  destruct (Db.upsert_restaurants _ w) as [[rows|e] w1]; [|done].
  by destruct (cache_set _ _ _ _ w1) as [[[]|e] w2].
Qed.

(** The second half of the endpoint only adds to the record of calls. *)
Lemma store_and_cache_trace settings cache request places m w :
  ∃ evs, trace (store_and_cache settings cache request places m w).2 = trace w ++ evs.
Proof.
  rewrite store_and_cache_run.
  destruct (omapM _ places) as [data|e]; [|exists []; by rewrite app_nil_r].
  unfold Db.upsert_restaurants, cache_set.
  destruct data as [|d ds]; destruct cache; run;
    repeat case_match; simplify_eq/=; rewrite <-?app_assoc; eauto using app_nil_r.
Qed.

(** Once the request has gone on to the provider, the call is on record. *)
Lemma endpoint_asks_provider settings cache request x_skip_cache w :
  get_cache settings = Return cache →
  reaches_provider cache request x_skip_cache w →
  ∃ evs, trace (Main.search_nearby_restaurants settings request x_skip_cache w).2
         = trace w ++ lookup_events request x_skip_cache ++ ProviderSearch :: evs.
Proof.
  intros Hc Hreach. rewrite (endpoint_miss _ _ _ _ _ Hc Hreach).
  destruct (provider_result request w) as [[[|p ps] m]|e]; simpl.
  - exists []. apply asked_trace.
  - destruct (store_and_cache_trace settings cache request (p :: ps) m
                (asked request x_skip_cache w)) as [evs ->].
    exists evs. rewrite asked_trace, <-!app_assoc. done.
  - exists []. apply asked_trace.
Qed.

(** None of the calls made up to the provider writes anything. *)
Lemma lookup_events_read_only request x_skip_cache ev :
  ev ∈ lookup_events request x_skip_cache ++ [ProviderSearch] →
  (∀ key ids ttl, ev ≠ CacheSet key ids ttl) ∧ (∀ ids, ev ≠ Upsert ids).
Proof.
  unfold lookup_events. case_bool_decide; set_solver.
Qed.

(** C1: the code breaks the claim.  With a provider that fails every
    group request, an empty cache and all stores working, the endpoint
    answers 200 with an empty result, not the 503 it gives when the
    provider client raises ([malformed_response_is_503]). *)
Lemma all_groups_failing_returns_empty_success :
  all_groups_fail Sample.request Sample.world_down
  ∧ (Main.search_nearby_restaurants Sample.postgres_settings Sample.request None
       Sample.world_down).1
    = Return {| Main.restaurants := []; Main.count := 0; Main.cached := false;
                Main.cache_key := Some "nearby:40.713:-74.006:1500:"%string;
                Main.requests_made := Some 15; Main.max_requests := Some 15;
                Main.raw_places := Some 0; Main.unique_places := Some 0;
                Main.truncated := Some false |}
  ∧ Main.http_status
      (Main.search_nearby_restaurants Sample.postgres_settings Sample.request None
         Sample.world_down).1 = 200.
Proof. split; [by intros g|]. split; vm_compute; reflexivity. Qed.

(** The fetch itself raises when a group answers with a ["places"] member
    that has no length: [len(places)] raises outside the [try] of
    [fetch_group], and the endpoint answers 503 without writing anything. *)
Example malformed_response_is_503 :
  provider_result Sample.request Sample.world_malformed = Raise TypeError
  ∧ Main.search_nearby_restaurants Sample.postgres_settings Sample.request None
      Sample.world_malformed
    = (Raise (HTTPException 503 "Restaurant search temporarily unavailable"),
       add_events [CacheGet Sample.key; ProviderSearch] Sample.world_malformed).
Proof. split; vm_compute; reflexivity. Qed.

(** A fetch with records, then the same request again: the second is
    served from the cache, without a provider call. *)
Example second_request_is_a_cache_hit :
  (Main.search_nearby_restaurants Sample.postgres_settings Sample.request None
     (later 5 no_faults Sample.provider_up
        (Main.search_nearby_restaurants Sample.postgres_settings Sample.request None
           Sample.world_up).2)).1
  = Return {| Main.restaurants :=
                [ {| Main.r_id := 0; Main.r_google_place_id := "ChIJa";
                     Main.r_payload := Sample.pa; Main.r_last_fetched_at := 0 |};
                  {| Main.r_id := 1; Main.r_google_place_id := "ChIJb";
                     Main.r_payload := Sample.pb; Main.r_last_fetched_at := 0 |} ];
              Main.count := 2; Main.cached := true;
              Main.cache_key := Some Sample.key;
              Main.requests_made := None; Main.max_requests := None;
              Main.raw_places := None; Main.unique_places := None;
              Main.truncated := None |}
  ∧ trace (Main.search_nearby_restaurants Sample.postgres_settings Sample.request None
             (later 5 no_faults Sample.provider_up
                (Main.search_nearby_restaurants Sample.postgres_settings Sample.request
                   None Sample.world_up).2)).2
    = [ CacheGet Sample.key; ProviderSearch; Upsert [Some "ChIJa"; Some "ChIJb"]%string;
        CacheSet Sample.key ["ChIJa"; "ChIJb"]%string 900;
        CacheGet Sample.key; Lookup ["ChIJa"; "ChIJb"]%string ].
Proof. split; vm_compute; reflexivity. Qed.

(** The two ways a provider failure ends: when the fetch itself raises,
    the request fails with a 503; when every group request fails, each
    failure is absorbed, the fetch returns no record and the request
    succeeds with an empty result that is not marked as cached.  In both
    cases the request ends right after the provider call: no table and no
    key of the cache is changed, and no cache write and no upsert is
    made. *)
Theorem provider_failure_503_or_empty settings cache request x_skip_cache w :
  get_cache settings = Return cache →
  reaches_provider cache request x_skip_cache w →
  (∀ e, provider_result request w = Raise e →
     Main.search_nearby_restaurants settings request x_skip_cache w
     = (Raise (HTTPException 503 "Restaurant search temporarily unavailable"),
        asked request x_skip_cache w))
  ∧ (all_groups_fail request w →
     ∃ m, provider_result request w = Return ([], m)
          ∧ GooglePlaces.raw_places m = 0
          ∧ Main.search_nearby_restaurants settings request x_skip_cache w
            = (Return (empty_response request m), asked request x_skip_cache w)
          ∧ Main.http_status
              (Main.search_nearby_restaurants settings request x_skip_cache w).1 = 200)
  ∧ restaurants (asked request x_skip_cache w) = restaurants w
  ∧ nearby_query_cache (asked request x_skip_cache w) = nearby_query_cache w
  ∧ redis_keys (asked request x_skip_cache w) = redis_keys w
  ∧ trace (asked request x_skip_cache w)
    = trace w ++ lookup_events request x_skip_cache ++ [ProviderSearch]
  ∧ (∀ ev, ev ∈ lookup_events request x_skip_cache ++ [ProviderSearch] →
       (∀ key ids ttl, ev ≠ CacheSet key ids ttl) ∧ (∀ ids, ev ≠ Upsert ids)).
Proof.
  intros Hc Hreach.
  pose proof (endpoint_miss _ _ _ _ _ Hc Hreach) as Hrun.
  destruct (asked_state request x_skip_cache w) as (_ & Hr & Hp & Hk & _).
  split; [|split; [|repeat split]].
  - intros e He. by rewrite Hrun, He.
  - intros Hall. eexists. split; [by apply provider_result_all_fail|].
    rewrite Hrun, provider_result_all_fail by done. done.
  - done.
  - done.
  - done.
  - apply asked_trace.
  - by eapply lookup_events_read_only.
  - by eapply lookup_events_read_only.
Qed.

(** C5: when the request goes on to the provider and the fetch returns no
    record, the endpoint returns an empty result with [cached = false] and
    the metadata of the fetch; it leaves the cache as it was and makes no
    cache write.  If the key had no live entry, the same request made again
    at any later time still finds nothing in the cache and asks the provider
    again. *)
Theorem empty_fetch_is_not_cached settings cache request x_skip_cache w m :
  get_cache settings = Return cache →
  reaches_provider cache request x_skip_cache w →
  provider_result request w = Return ([], m) →
  Main.search_nearby_restaurants settings request x_skip_cache w
  = (Return (empty_response request m), asked request x_skip_cache w)
  ∧ Main.restaurants (empty_response request m) = []
  ∧ Main.cached (empty_response request m) = false
  ∧ Main.raw_places (empty_response request m) = Some (GooglePlaces.raw_places m)
  ∧ nearby_query_cache (asked request x_skip_cache w) = nearby_query_cache w
  ∧ redis_keys (asked request x_skip_cache w) = redis_keys w
  ∧ cache_live cache (key_of request) (asked request x_skip_cache w)
    = cache_live cache (key_of request) w
  ∧ trace (asked request x_skip_cache w)
    = trace w ++ lookup_events request x_skip_cache ++ [ProviderSearch]
  ∧ (∀ ev, ev ∈ lookup_events request x_skip_cache ++ [ProviderSearch] →
       ∀ key ids ttl, ev ≠ CacheSet key ids ttl)
  ∧ (cache_live cache (key_of request) w = None →
     ∀ dt f api, 0 ≤ dt →
       (∀ ids, (cache_get cache (key_of request)
                  (later dt f api (asked request x_skip_cache w))).1 ≠ Return (Some ids))
       ∧ ((cache = Postgres → cache_session_down f = false) →
          (cache_get cache (key_of request)
             (later dt f api (asked request x_skip_cache w))).1 = Return None
          ∧ ∃ evs,
              trace (Main.search_nearby_restaurants settings request None
                       (later dt f api (asked request x_skip_cache w))).2
              = trace (asked request x_skip_cache w)
                ++ CacheGet (key_of request) :: ProviderSearch :: evs)).
Proof.
  intros Hc Hreach Hres.
  pose proof (endpoint_miss _ _ _ _ _ Hc Hreach) as Hrun. rewrite Hres in Hrun.
  destruct (asked_state request x_skip_cache w) as (Hn & Hr & Hp & Hk & _).
  assert (cache_live cache (key_of request) (asked request x_skip_cache w)
          = cache_live cache (key_of request) w) as Hlive
    by (by apply cache_live_ext).
  repeat split; try done.
  - apply asked_trace.
  - intros key ids ttl. by eapply lookup_events_read_only.
  - intros ids Hhit%cache_get_live.
    rewrite cache_live_later in Hhit; [done..|by rewrite Hlive].
  - apply cache_get_miss; [|done].
    apply cache_live_later; [done|by rewrite Hlive].
  - assert (reaches_provider cache request None
              (later dt f api (asked request x_skip_cache w))) as Hreach2.
    { right. apply cache_get_miss; [|done].
      apply cache_live_later; [done|by rewrite Hlive]. }
    destruct (endpoint_asks_provider _ _ _ _ _ Hc Hreach2) as [evs ->].
    exists evs. done.
Qed.

End Endpoint.

(** * Instances on sample data *)

Section Instances.
Import GooglePlaces CacheKey.


(** C4 with a bound of one record. *)
Lemma search_truncates_to_max_results_witness :
  (0 ≤ 1)
  ∧ (∃ places m,
    fan_out (transport_of <$> Sample.replies) 1 = Return (places, m)
    ∧ (Z.of_nat (length (deduplicated Sample.replies)) > 1 →
       places = take (Z.to_nat 1) (deduplicated Sample.replies)
       ∧ Z.of_nat (length places) = 1
       ∧ truncated m = true)
    ∧ (Z.of_nat (length (deduplicated Sample.replies)) ≤ 1 →
       places = deduplicated Sample.replies ∧ truncated m = false)).
Proof.
  split; [lia|]. apply (search_truncates_to_max_results Sample.replies 1). lia.
Defined.

(** C10 on two completion orders. *)
Lemma fan_out_independent_of_completion_order_witness :
  (settles_all (length (transport_of <$> Sample.replies)) [2; 0; 1]%nat = true)
  ∧ (settles_all (length (transport_of <$> Sample.replies)) [0; 1; 2]%nat = true)
  ∧ (fan_out_scheduled [2; 0; 1]%nat (transport_of <$> Sample.replies) 300
    = fan_out_scheduled [0; 1; 2]%nat (transport_of <$> Sample.replies) 300
  ∧ fan_out_scheduled [2; 0; 1]%nat (transport_of <$> Sample.replies) 300 = Some (fan_out
      (transport_of <$> Sample.replies) 300)).
Proof.
  split; [reflexivity|]. split; [reflexivity|].
  apply (fan_out_independent_of_completion_order
           (transport_of <$> Sample.replies) 300 [2; 0; 1]%nat [0; 1; 2]%nat);
    reflexivity.
Defined.

(** C5 on a provider that answers every group without a record. *)
Lemma empty_fetch_is_not_cached_witness :
  (get_cache Sample.postgres_settings = Return Postgres)
  ∧ (reaches_provider Postgres Sample.request None Sample.world_empty)
  ∧ (provider_result Sample.request Sample.world_empty = Return ([], Sample.empty_meta))
  ∧ (Main.search_nearby_restaurants Sample.postgres_settings Sample.request None
      Sample.world_empty
  = (Return (empty_response Sample.request Sample.empty_meta), asked Sample.request None
      Sample.world_empty)
  ∧ Main.restaurants (empty_response Sample.request Sample.empty_meta) = []
  ∧ Main.cached (empty_response Sample.request Sample.empty_meta) = false
  ∧ Main.raw_places (empty_response Sample.request Sample.empty_meta) = Some
      (GooglePlaces.raw_places Sample.empty_meta)
  ∧ nearby_query_cache (asked Sample.request None Sample.world_empty) = nearby_query_cache
      Sample.world_empty
  ∧ redis_keys (asked Sample.request None Sample.world_empty) = redis_keys
      Sample.world_empty
  ∧ cache_live Postgres (key_of Sample.request) (asked Sample.request None
      Sample.world_empty)
    = cache_live Postgres (key_of Sample.request) Sample.world_empty
  ∧ trace (asked Sample.request None Sample.world_empty)
    = trace Sample.world_empty ++ lookup_events Sample.request None ++ [ProviderSearch]
  ∧ (∀ ev, ev ∈ lookup_events Sample.request None ++ [ProviderSearch] →
       ∀ key ids ttl, ev ≠ CacheSet key ids ttl)
  ∧ (cache_live Postgres (key_of Sample.request) Sample.world_empty = None →
     ∀ dt f api, 0 ≤ dt →
       (∀ ids, (cache_get Postgres (key_of Sample.request)
                  (later dt f api (asked Sample.request None Sample.world_empty))).1 ≠
                      Return (Some ids))
       ∧ ((Postgres = Postgres → cache_session_down f = false) →
          (cache_get Postgres (key_of Sample.request)
             (later dt f api (asked Sample.request None Sample.world_empty))).1 = Return
                 None
          ∧ ∃ evs,
              trace (Main.search_nearby_restaurants Sample.postgres_settings Sample.request
                  None
                       (later dt f api (asked Sample.request None Sample.world_empty))).2
              = trace (asked Sample.request None Sample.world_empty)
                ++ CacheGet (key_of Sample.request) :: ProviderSearch :: evs))).
Proof.
  split; [reflexivity|]. split; [right; vm_compute; reflexivity|].
  split; [vm_compute; reflexivity|].
  apply (empty_fetch_is_not_cached Sample.postgres_settings Postgres Sample.request None
           Sample.world_empty Sample.empty_meta);
    [reflexivity|right; vm_compute; reflexivity|vm_compute; reflexivity].
Defined.


(** C9: the Redis server is down. *)
Lemma redis_cache_absorbs_backend_errors_witness :
  raises (client ← RedisCache.connect; client_get client Sample.key)
    (add_event (CacheGet Sample.key) Sample.world_all_down)
  ∧ (RedisCache.get RedisCache.connect Sample.key Sample.world_all_down).1 = Return None
  ∧ (RedisCache.set RedisCache.connect Sample.key ["ChIJa"]%string 900
       Sample.world_all_down).1 = Return tt
  ∧ (RedisCache.delete RedisCache.connect Sample.key Sample.world_all_down).1
    = Return false.
Proof.
  pose proof (redis_cache_absorbs_backend_errors RedisCache.connect
                Sample.key ["ChIJa"]%string 900 Sample.world_all_down)
    as (Hget & Hset & Hdel & _).
  assert (∀ A (m : Async A) w, (m w).1 = Raise RedisError → raises m w) as Hr
    by (intros A m w H; exists RedisError; exact H).
  split; [apply Hr; reflexivity|].
  split; [apply Hget, Hr; reflexivity|].
  split; [apply Hset, Hr; reflexivity|].
  apply Hdel, Hr; reflexivity.
Defined.

End Instances.

(** * Further properties of the code *)

(** ** The Postgres cache: round trip, overwrite, delete, sweep *)

Section PostgresCacheMore.

Implicit Types (key : string) (ids : list string) (w : World).

Ltac exec :=
  unfold PostgresCache.get, PostgresCache.set, PostgresCache.delete,
    PostgresCache.cleanup_expired, PostgresCache.session,
    try_except, lift, step, log, modify, ask, raise,
    mbind, mret, Async_bind, Async_ret, bind, ret in *; simpl in *.

(** X1: for a time to live whose expiry is a datetime, what [set] stores
    is what [get] returns until the time to live is over, and nothing from
    that instant on. *)
Theorem postgres_set_get_round_trip key ids (ttl dt : Z) f api w :
  expiry_representable (now w) ttl →
  cache_session_down (faults w) = false →
  cache_session_down f = false →
  0 ≤ dt →
  (PostgresCache.get key (later dt f api (PostgresCache.set key ids ttl w).2)).1
  = Return (if dt <? seconds ttl then Some ids else None).
Proof.
  intros _ Hup Hup' Hdt. exec. rewrite Hup. simpl. rewrite Hup'. simpl.
  rewrite lookup_insert_eq. simpl.
  destruct (Z.ltb_spec dt (seconds ttl)).
  - by rewrite (proj2 (Z.ltb_lt _ _)) by lia.
  - by rewrite (proj2 (Z.ltb_ge _ _)) by lia.
Qed.

(** X2: for times to live whose expiry is a datetime, [set] is an upsert
    on the key: the last writer wins, whatever was stored before, and no
    other key is touched. *)
Theorem postgres_set_last_writer_wins key ids ids' (ttl ttl' : Z) w :
  expiry_representable (now w) ttl →
  expiry_representable (now w) ttl' →
  cache_session_down (faults w) = false →
  nearby_query_cache (PostgresCache.set key ids' ttl' (PostgresCache.set key ids ttl w).2).2
  = nearby_query_cache (PostgresCache.set key ids' ttl' w).2
  ∧ nearby_query_cache (PostgresCache.set key ids ttl w).2 !! key
    = Some (CacheRow ids (now w + seconds ttl))
  ∧ (∀ key', key' ≠ key →
       nearby_query_cache (PostgresCache.set key ids ttl w).2 !! key'
       = nearby_query_cache w !! key').
Proof.
  intros _ _ Hup. exec. rewrite Hup. simpl. rewrite Hup. simpl.
  split; [apply insert_insert_eq|]. split; [apply lookup_insert_eq|].
  intros key' Hne. by apply lookup_insert_ne.
Qed.

(** X3: [delete] answers whether a row was stored under the key, expired
    or not; afterwards the key is gone and every other key is as before. *)
Theorem postgres_delete_reports_row key w :
  cache_session_down (faults w) = false →
  (PostgresCache.delete key w).1
  = Return (bool_decide (is_Some (nearby_query_cache w !! key)))
  ∧ nearby_query_cache (PostgresCache.delete key w).2 !! key = None
  ∧ (∀ f api dt, cache_session_down f = false →
       (PostgresCache.get key (later dt f api (PostgresCache.delete key w).2)).1
       = Return None)
  ∧ (∀ key', key' ≠ key →
       nearby_query_cache (PostgresCache.delete key w).2 !! key'
       = nearby_query_cache w !! key').
Proof.
  intros Hup. exec. rewrite Hup. simpl.
  split; [|split; [apply lookup_delete_eq|split]].
  - by destruct (nearby_query_cache w !! key) as [row|] eqn:E.
  - intros f api dt Hf. rewrite Hf. simpl. by rewrite lookup_delete_eq.
  - intros key' Hne. by apply lookup_delete_ne.
Qed.

(** The rows whose expiry has passed. *)
Lemma expired_rows_size (now : Z) (tbl : gmap string cache_row) :
  size tbl
  = Nat.add (size (filter (λ kv, now < expires_at kv.2) tbl))
      (size (filter (λ kv, ¬ now < expires_at kv.2) tbl)).
Proof.
  rewrite <-map_size_disj_union by apply map_disjoint_filter_complement.
  by rewrite map_filter_union_complement.
Qed.

(** X4: [cleanup_expired] deletes exactly the rows whose expiry has passed
    and returns how many they were; no reader sees a difference; run again
    at once, it finds nothing. *)
Theorem postgres_cleanup_removes_only_expired w :
  cache_session_down (faults w) = false →
  (PostgresCache.cleanup_expired w).1
  = Return (Z.of_nat (size (filter (λ kv, ¬ now w < expires_at kv.2)
                              (nearby_query_cache w))))
  ∧ (∀ key row,
       nearby_query_cache (PostgresCache.cleanup_expired w).2 !! key = Some row
       ↔ nearby_query_cache w !! key = Some row ∧ now w < expires_at row)
  ∧ (∀ key, (PostgresCache.get key (PostgresCache.cleanup_expired w).2).1
            = (PostgresCache.get key w).1)
  ∧ (PostgresCache.cleanup_expired (PostgresCache.cleanup_expired w).2).1 = Return 0.
Proof.
  intros Hup. exec. rewrite Hup. simpl. rewrite Hup. simpl.
  split; [|split; [|split]].
  - f_equal. rewrite (expired_rows_size (now w) (nearby_query_cache w)). lia.
  - intros key row. by rewrite map_lookup_filter_Some.
  - intros key.
    destruct (nearby_query_cache w !! key) as [row|] eqn:E.
    + destruct (Z.ltb_spec (now w) (expires_at row)) as [Hlive|Hdead].
      * rewrite (proj2 (map_lookup_filter_Some _ _ key row)) by done.
        by rewrite (proj2 (Z.ltb_lt _ _)) by done.
      * rewrite (proj2 (map_lookup_filter_None _ _ key)); [done|].
        right. intros row' ?. simplify_eq. simpl. lia.
    + rewrite (proj2 (map_lookup_filter_None _ _ key)); [done|]. by left.
  - assert (filter (λ kv : string * cache_row, now w < expires_at kv.2)
              (filter (λ kv : string * cache_row, now w < expires_at kv.2)
                 (nearby_query_cache w))
            = filter (λ kv : string * cache_row, now w < expires_at kv.2)
                (nearby_query_cache w)) as ->.
    { apply map_eq. intros k. apply option_eq. intros row.
      rewrite !map_lookup_filter_Some. naive_solver. }
    f_equal. lia.
Qed.

End PostgresCacheMore.

(** ** The provider client: groups, counts, and when the search raises *)

Section SearchMore.
Import GooglePlaces.

Implicit Types (ts : list transport) (max_results : Z).

(** X5: explicit types give one request, for the first ten types at most;
    no types, or an empty list of types, give one request for each of the
    fifteen default groups; and [requests_made] and [max_requests] report
    that number. *)
Theorem search_nearby_request_groups (api : provider) lat lng radius included_types
    max_results places m :
  search_nearby api lat lng radius included_types max_results = Return (places, m) →
  requests_made m = Z.of_nat (length (type_groups included_types))
  ∧ max_requests m = requests_made m
  ∧ match included_types with
    | Some (t :: types) =>
        type_groups included_types = [take 10 (t :: types)]
        ∧ requests_made m = 1
        ∧ (length (take 10 (t :: types)) ≤ 10)%nat
    | _ => type_groups included_types = DEFAULT_TYPE_GROUPS ∧ requests_made m = 15
    end.
Proof.
  unfold search_nearby, search_groups, fan_out, process_results.
  destruct (merge_results _ _) as [st|e]; simpl; [|done].
  intros [= <- <-]. simpl. rewrite length_fmap.
  split; [done|]. split; [done|].
  destruct included_types as [[|t types]|]; simpl; try done.
  split; [done|]. split; [done|]. rewrite length_take. lia.
Qed.

Lemma first_seen_length seen (ps : list place) :
  (length (first_seen seen ps) ≤ length ps)%nat.
Proof.
  rewrite <-(length_fmap snd (first_seen seen ps)).
  apply sublist_length, first_seen_sublist.
Qed.

(** X6: the counts of a search that returns: the unique records are at
    most the raw ones, the returned ones at most the unique ones; for a
    bound that is not negative the returned records are as many as the
    smaller of the unique count and the bound, and [truncated] says
    exactly that the unique count is above the bound. *)
Theorem search_counts ts max_results places m :
  fan_out ts max_results = Return (places, m) →
  0 ≤ unique_places m ≤ raw_places m
  ∧ Z.of_nat (length places) ≤ unique_places m
  ∧ (truncated m = false → Z.of_nat (length places) = unique_places m)
  ∧ (0 ≤ max_results →
     Z.of_nat (length places) = Z.min (unique_places m) max_results
     ∧ (truncated m = true ↔ max_results < unique_places m)).
Proof.
  unfold fan_out, process_results.
  destruct (merge_results _ _) as [[d n]|e] eqn:E; simpl; [|done].
  intros [= <- <-]. simpl.
  pose proof (merge_results_returns _ _ _ E) as [pss Hpss].
  rewrite Hpss, merge_results_records in E. simpl in E. injection E as <- <-.
  pose proof (first_seen_length [] (concat pss)) as Hlen.
  pose proof (sublist_length _ _ (slice_to_sublist max_results
                                    (first_seen [] (concat pss)).*2)) as Hsl.
  rewrite length_fmap in Hsl.
  split; [lia|]. split; [lia|]. split.
  - intros Htr. rewrite Z.gtb_ltb in Htr. apply Z.ltb_ge in Htr.
    rewrite slice_to_all by done. by rewrite length_fmap.
  - intros Hmax. rewrite slice_to_take by done.
    rewrite length_take, length_fmap, Z.gtb_ltb, Z.ltb_lt. lia.
Qed.

Lemma merge_places_raises d (l : list element) e :
  merge_places d l = Raise e → e = TypeError ∨ e = AttributeError.
Proof.
  revert d. induction l as [|x l IH]; intros d; simpl; [done|].
  destruct x as [p| |]; simpl; [|intros [= <-]; by left|intros [= <-]; by right].
  destruct (truthy_id (place_id p)) as [i|]; simpl; [|by apply IH].
  destruct (dict_contains i d); simpl; by apply IH.
Qed.

Lemma merge_results_raises st (results : list places_value) e :
  merge_results st results = Raise e → e = TypeError ∨ e = AttributeError.
Proof.
  revert st. induction results as [|v results IH]; intros st; simpl; [done|].
  destruct v as [l|]; simpl; [|intros [= <-]; by left].
  destruct (merge_places st.1 l) as [d|e'] eqn:E; simpl; [by apply IH|].
  intros [= <-]. by eapply merge_places_raises.
Qed.

(** The merge returns exactly on lists of records. *)
Lemma fan_out_returns ts max_results :
  (∃ r, fan_out ts max_results = Return r) ↔ Forall well_formed ts.
Proof.
  split.
  - intros [[places m] Hr]. unfold fan_out, process_results in Hr.
    destruct (merge_results _ _) as [st|e] eqn:E; simpl in Hr; [|done].
    apply merge_results_returns in E as [pss Hpss].
    clear Hr. revert pss Hpss. induction ts as [|t ts IH]; intros pss Hpss; [constructor|].
    destruct pss as [|ps pss]; [done|]. injection Hpss as Ht Hts.
    constructor; [by exists ps|by eapply IH].
  - intros Hwf.
    assert (∃ pss, fetch_group <$> ts = records <$> pss) as [pss Hpss].
    { induction Hwf as [|t ts [ps Hps] _ [pss IH]]; [by exists []|].
      exists (ps :: pss). rewrite !fmap_cons. by rewrite Hps, IH. }
    unfold fan_out, process_results. rewrite Hpss, merge_results_records. simpl.
    by eexists.
Qed.

(** X7: failed group requests never make the search raise, malformed
    bodies do.  A group whose request failed, or whose body has no
    ["places"] member, hands the merge the empty list, and a group whose
    ["places"] yields JSON objects (with a string id, a null id or none)
    hands it those: when every group is of these kinds the search
    returns.  One group whose ["places"] has no length, or yields an
    element that is not a JSON object, or an object whose id is a
    non-empty list or object, makes the whole search raise, whatever the
    other groups returned; what the search raises is a [TypeError] or an
    [AttributeError]. *)
Theorem search_raises_only_on_malformed_places ts max_results :
  ((∀ t, t ∈ ts → t = PostRaised ∨ t = Body None ∨ ∃ ps, t = succeeded ps) →
   ∃ r, fan_out ts max_results = Return r)
  ∧ (Body (Some PlacesNotList) ∈ ts → ∃ e, fan_out ts max_results = Raise e)
  ∧ (∀ l, NonObj ∈ l ∨ ObjUnhashableId ∈ l → Body (Some (PlacesList l)) ∈ ts →
          ∃ e, fan_out ts max_results = Raise e)
  ∧ (∀ e, fan_out ts max_results = Raise e → e = TypeError ∨ e = AttributeError).
Proof.
  assert (∀ t, t ∈ ts → ¬ well_formed t → ∃ e, fan_out ts max_results = Raise e) as Hbad.
  { intros t Ht Hwf. destruct (fan_out ts max_results) as [r|e] eqn:E; [|by exists e].
    destruct Hwf. assert (Forall well_formed ts) as Hall
      by (apply (proj1 (fan_out_returns ts max_results)); exists r; exact E).
    rewrite Forall_forall in Hall. by apply Hall. }
  split; [|split; [|split]].
  - intros Hts. apply (proj2 (fan_out_returns ts max_results)), Forall_forall.
    intros t Ht.
    destruct (Hts t Ht) as [->|[->|[ps ->]]]; [by exists []|by exists []|by exists ps].
  - intros Ht. apply (Hbad _ Ht). by intros [ps ?].
  - intros l Hl Ht. apply (Hbad _ Ht). intros [ps Hps]. simpl in Hps.
    injection Hps as ->.
    destruct Hl as [Hl|Hl]; apply list_elem_of_fmap in Hl as (p & ? & _); done.
  - intros e. unfold fan_out, process_results.
    destruct (merge_results _ _) as [st|e'] eqn:E; simpl; [done|].
    intros [= <-]. by eapply merge_results_raises.
Qed.

End SearchMore.

(** ** The restaurant store: upsert, lookup, staleness *)

Section DbMore.

Implicit Types (tbl : list Restaurant) (d : Db.restaurant_data) (gid : string) (w : World)
  (data : list Db.restaurant_data) (gids : list string).

Lemma filter_ext_elem {A} (P Q : A → Prop) `{!∀ x, Decision (P x)} `{!∀ x, Decision (Q x)}
    (l : list A) :
  (∀ x, x ∈ l → (P x ↔ Q x)) → filter P l = filter Q l.
Proof.
  induction l as [|x l IH]; intros Hext; [done|].
  rewrite !filter_cons.
  rewrite IH by (intros y Hy; apply Hext; by right).
  destruct (decide (P x)) as [HP|HP], (decide (Q x)) as [HQ|HQ]; try done.
  - apply Hext in HP; [done|by left].
  - apply Hext in HQ; [done|by left].
Qed.

Lemma update_existing_split gid d tbl t x :
  Db.update_existing gid d tbl = Some (t, x) →
  ∃ l1 r l2, tbl = l1 ++ r :: l2 ∧ google_place_id r = gid ∧ (gid ∉ google_place_id <$> l1)
             ∧ t = l1 ++ Db.apply_update d r :: l2 ∧ x = Db.apply_update d r.
Proof.
  revert t x. induction tbl as [|r tbl IH]; intros t x; simpl; [done|].
  case_bool_decide as Hr.
  - intros [= <- <-]. exists [], r, tbl. split_and!; try done. apply not_elem_of_nil.
  - destruct (Db.update_existing gid d tbl) as [[t' x']|] eqn:E; [|done].
    intros [= <- <-]. destruct (IH _ _ eq_refl) as (l1 & r' & l2 & -> & Hg & Hn & -> & ->).
    exists (r :: l1), r', l2. split_and!; try done.
    rewrite fmap_cons, not_elem_of_cons. done.
Qed.

Lemma update_existing_None gid d tbl :
  Db.update_existing gid d tbl = None ↔ gid ∉ google_place_id <$> tbl.
Proof.
  induction tbl as [|r tbl IH]; simpl.
  - split; [intros _; apply not_elem_of_nil|done].
  - rewrite not_elem_of_cons. case_bool_decide as Hr.
    + split; [done|]. intros [? _]. congruence.
    + destruct (Db.update_existing gid d tbl) as [[t' x']|].
      * split; [done|]. intros [_ Hn]. by apply IH in Hn.
      * split; [|done]. intros _. split; [congruence|]. by apply IH.
Qed.

(** The row with a given place id, in a table where place ids are unique. *)
Lemma unique_row l1 r l2 r' :
  NoDup (google_place_id <$> l1 ++ r :: l2) → r' ∈ l1 ++ r :: l2 →
  google_place_id r' = google_place_id r → r' = r.
Proof.
  rewrite fmap_app, fmap_cons. intros Hnd Hin Hg.
  apply NoDup_app in Hnd as (_ & Hdisj & Hnd). apply NoDup_cons in Hnd as [Hr _].
  apply elem_of_app in Hin as [Hin|Hin].
  - exfalso. apply (Hdisj (google_place_id r')); [by apply list_elem_of_fmap_2|].
    rewrite Hg. by left.
  - apply elem_of_cons in Hin as [->|Hin]; [done|].
    exfalso. apply Hr. rewrite <-Hg. by apply list_elem_of_fmap_2.
Qed.

Lemma upsert_one_spec now gid d st st1 x :
  Db.upsert_one now gid d st = (st1, x) →
  google_place_id <$> st1.1
  = (google_place_id <$> st.1)
    ++ (if decide (gid ∈ google_place_id <$> st.1) then [] else [gid])
  ∧ filter (λ r, google_place_id r ≠ gid) st1.1
    = filter (λ r, google_place_id r ≠ gid) st.1
  ∧ x ∈ st1.1
  ∧ google_place_id x = gid
  ∧ provider_payload x = Db.d_provider_payload d
  ∧ last_fetched_at x = Db.d_last_fetched_at d
  ∧ (NoDup (google_place_id <$> st.1) → ∀ r, r ∈ st.1 → google_place_id r = gid →
       id x = id r ∧ created_at x = created_at r)
  ∧ ((gid ∉ google_place_id <$> st.1) → created_at x = now).
Proof.
  unfold Db.upsert_one.
  destruct (Db.update_existing gid d st.1) as [[t x']|] eqn:E.
  - intros [= <- <-]. simpl.
    apply update_existing_split in E as (l1 & r & l2 & Htbl & Hg & Hn & -> & ->).
    assert (gid ∈ google_place_id <$> st.1) as Hin.
    { rewrite Htbl, fmap_app, fmap_cons, Hg. apply elem_of_app. right. by left. }
    rewrite decide_True by done. rewrite app_nil_r.
    split_and!; try done.
    + by rewrite Htbl, !fmap_app, !fmap_cons.
    + rewrite Htbl, !filter_app, !filter_cons_False; [done|simpl; tauto..].
    + apply elem_of_app. right. by left.
    + intros Hnd r' Hr' Hg'. rewrite Htbl in Hnd, Hr'.
      by rewrite (unique_row l1 r l2 r' Hnd Hr') by congruence.
  - intros [= <- <-]. simpl. apply update_existing_None in E.
    rewrite decide_False by done.
    split_and!; try done.
    + by rewrite fmap_app.
    + rewrite filter_app, filter_cons_False by (simpl; tauto). by rewrite app_nil_r.
    + apply elem_of_app. right. by left.
    + intros _ r Hr Hg. exfalso. apply E. rewrite <-Hg. by apply list_elem_of_fmap_2.
Qed.

Lemma filter_other_ids gid gids tbl :
  filter (λ r, google_place_id r ∉ gid :: gids) tbl
  = filter (λ r, google_place_id r ∉ gids) (filter (λ r, google_place_id r ≠ gid) tbl).
Proof.
  rewrite list_filter_filter. apply list_filter_iff. intros r.
  rewrite not_elem_of_cons. tauto.
Qed.

Lemma filter_other_ids' gid gids tbl :
  filter (λ r, google_place_id r ∉ gid :: gids) tbl
  = filter (λ r, google_place_id r ≠ gid) (filter (λ r, google_place_id r ∉ gids) tbl).
Proof.
  rewrite list_filter_filter. apply list_filter_iff. intros r.
  rewrite not_elem_of_cons. tauto.
Qed.

(** One statement, row by row. *)
Lemma upsert_rows_spec now data gids st :
  Db.d_google_place_id <$> data = Some <$> gids → NoDup gids →
  NoDup (google_place_id <$> st.1) →
  google_place_id <$> (Db.upsert_rows now (zip gids data) st).1.1
  = (google_place_id <$> st.1) ++ filter (λ g, g ∉ google_place_id <$> st.1) gids
  ∧ filter (λ r, google_place_id r ∉ gids) (Db.upsert_rows now (zip gids data) st).1.1
    = filter (λ r, google_place_id r ∉ gids) st.1
  ∧ Forall2 (λ d x, upserted now st.1 d x
                    ∧ x ∈ (Db.upsert_rows now (zip gids data) st).1.1)
      data (Db.upsert_rows now (zip gids data) st).2.
Proof.
  revert gids st. induction data as [|d data IH]; intros gids st Hids Hnd Hst.
  - destruct gids; [|done]. simpl. rewrite app_nil_r. by split_and!.
  - destruct gids as [|gid gids]; [done|]. injection Hids as Hd Hids.
    apply NoDup_cons in Hnd as [Hgid Hnd]. cbn [zip zip_with Db.upsert_rows].
    destruct (Db.upsert_one now gid d st) as [st1 x] eqn:E1.
    apply upsert_one_spec in E1 as (Hi1 & Hf1 & Hx1 & Hxg & Hxp & Hxl & Hold & Hnew).
    assert (NoDup (google_place_id <$> st1.1)) as Hst1.
    { rewrite Hi1. destruct (decide (gid ∈ google_place_id <$> st.1)); [by rewrite app_nil_r|].
      apply NoDup_app. split_and!; [done| |apply NoDup_singleton].
      intros g Hg ->%list_elem_of_singleton. done. }
    destruct (IH gids st1 Hids Hnd Hst1) as (Hi2 & Hf2 & Hall).
    destruct (Db.upsert_rows now (zip gids data) st1) as [st2 xs] eqn:E2. simpl in *.
    split_and!.
    + rewrite Hi2, Hi1. rewrite filter_cons.
      destruct (decide (gid ∈ google_place_id <$> st.1)) as [Hin|Hin].
      * rewrite app_nil_r, decide_False by tauto. done.
      * rewrite decide_True by done. rewrite <-app_assoc. simpl. do 2 f_equal.
        apply filter_ext_elem. intros g Hg. rewrite not_elem_of_app, list_elem_of_singleton.
        split; [tauto|]. intros ?. split; [done|]. by intros ->.
    + rewrite filter_other_ids', Hf2, <-filter_other_ids', filter_other_ids, Hf1.
      by rewrite <-filter_other_ids.
    + constructor.
      * split.
        -- unfold upserted. rewrite Hxg. split_and!; try done.
           intros r Hr Hg. by apply Hold.
        -- assert (x ∈ filter (λ r, google_place_id r ∉ gids) st1.1) as Hx.
           { apply list_elem_of_filter. split; [by rewrite Hxg|done]. }
           rewrite <-Hf2 in Hx. by apply list_elem_of_filter in Hx as [_ ?].
      * eapply Forall2_impl; [exact Hall|].
        intros d' x' [(Hg' & Hp' & Hl' & Hold' & Hnew') Hin'].
        split; [|done]. unfold upserted. split_and!; try done.
        -- intros r Hr Hg.
           destruct (decide (google_place_id r = gid)) as [Heq|Hne].
           ++ destruct (Hold Hst r Hr Heq) as [<- <-].
              apply Hold'; [done|congruence].
           ++ apply Hold'; [|done].
              assert (r ∈ filter (λ r, google_place_id r ≠ gid) st.1) as Hr'.
              { by apply list_elem_of_filter. }
              rewrite <-Hf1 in Hr'. by apply list_elem_of_filter in Hr' as [_ ?].
        -- intros Hn. destruct (decide (google_place_id x' = gid)) as [Heq|Hne].
           ++ rewrite Heq in Hn. rewrite <-(Hnew Hn).
              apply Hold'; [done|congruence].
           ++ apply Hnew'. rewrite Hi1, not_elem_of_app. split; [done|].
              destruct (decide (gid ∈ google_place_id <$> st.1)); [apply not_elem_of_nil|].
              by rewrite list_elem_of_singleton.
Qed.

Lemma upsert_restaurants_run data w :
  data ≠ [] →
  Db.upsert_restaurants data w
  = if upsert_down (faults w)
    then (Raise DBAPIError, add_event (Upsert (Db.d_google_place_id <$> data)) w)
    else match Db.insert_on_conflict (now w) data (restaurants w, next_uuid w) with
         | Some ((t, u), returned) =>
             (Return returned,
              set_restaurants t u (add_event (Upsert (Db.d_google_place_id <$> data)) w))
         | None => (Raise DBAPIError, add_event (Upsert (Db.d_google_place_id <$> data)) w)
         end.
Proof.
  intros Hne. destruct data as [|d data]; [done|].
  unfold Db.upsert_restaurants, step, log, modify, mbind, Async_bind, bind. simpl.
  destruct (upsert_down (faults w)); [done|].
  by destruct (Db.insert_on_conflict _ _ _) as [[[t u] returned]|].
Qed.

Lemma mapM_fmap_Some_eq {A B} (f : A → option B) (l : list A) (k : list B) :
  mapM f l = Some k ↔ f <$> l = Some <$> k.
Proof.
  rewrite mapM_Some. split.
  - induction 1 as [|x y l k Hxy _ IH]; [done|]. rewrite !fmap_cons. by rewrite Hxy, IH.
  - revert k. induction l as [|x l IH]; intros [|y k]; try done.
    intros [= Hx Hl]. constructor; [done|by apply IH].
Qed.

Lemma Forall2_fmap_eq {A B C} (f : A → C) (g : B → C) (l : list A) (k : list B) :
  Forall2 (λ x y, f x = g y) l k → f <$> l = g <$> k.
Proof.
  induction 1 as [|x y l k Hxy _ IH]; [done|]. rewrite !fmap_cons. by rewrite Hxy, IH.
Qed.

(** What a statement that returns has done. *)
Lemma upsert_restaurants_returns data w rows w' :
  Db.upsert_restaurants data w = (Return rows, w') →
  NoDup (google_place_id <$> restaurants w) →
  Db.d_google_place_id <$> data = Some <$> (google_place_id <$> rows)
  ∧ NoDup (google_place_id <$> rows)
  ∧ (data ≠ [] → upsert_down (faults w) = false)
  ∧ now w' = now w
  ∧ nearby_query_cache w' = nearby_query_cache w
  ∧ redis_keys w' = redis_keys w
  ∧ google_place_id <$> restaurants w'
    = (google_place_id <$> restaurants w)
      ++ filter (λ g, g ∉ google_place_id <$> restaurants w) (google_place_id <$> rows)
  ∧ filter (λ r, google_place_id r ∉ google_place_id <$> rows) (restaurants w')
    = filter (λ r, google_place_id r ∉ google_place_id <$> rows) (restaurants w)
  ∧ Forall2 (λ d x, upserted (now w) (restaurants w) d x ∧ x ∈ restaurants w') data rows.
Proof.
  intros Hrun Hnd. destruct (decide (data = [])) as [->|Hne].
  - injection Hrun as <- <-. simpl. rewrite app_nil_r.
    split_and!; try done. apply NoDup_nil_2.
  - rewrite upsert_restaurants_run in Hrun by done.
    destruct (upsert_down (faults w)) eqn:Hup; [done|].
    unfold Db.insert_on_conflict in Hrun.
    destruct (mapM Db.d_google_place_id data) as [gids|] eqn:Hm; [|done].
    case_bool_decide as Hgids; [|done].
    apply mapM_fmap_Some_eq in Hm.
    pose proof (upsert_rows_spec (now w) data gids (restaurants w, next_uuid w)
                  Hm Hgids Hnd) as (Hi & Hf & Hall).
    pose proof (upsert_rows_ids (now w) (zip gids data) (restaurants w, next_uuid w)) as Hr.
    rewrite fst_zip in Hr
      by (apply (f_equal length) in Hm; rewrite !length_fmap in Hm; lia).
    destruct (Db.upsert_rows (now w) (zip gids data) (restaurants w, next_uuid w))
      as [[t u] returned].
    injection Hrun as <- <-. simpl in *. subst gids. by split_and!.
Qed.

(** X8: whatever its outcome, an upsert keeps the place ids of the table
    unique and touches neither cache; when it raises, nothing is written;
    when it returns, the rows returned carry the place ids of the data,
    the place ids of the table are those it had together with the new
    ones of the data, and the rows with another place id are those that
    were there, unchanged.  The rows of a table have no order: what is
    said of the table is said up to a permutation. *)
Theorem upsert_keeps_place_ids_unique data w :
  NoDup (google_place_id <$> restaurants w) →
  NoDup (google_place_id <$> restaurants (Db.upsert_restaurants data w).2)
  ∧ nearby_query_cache (Db.upsert_restaurants data w).2 = nearby_query_cache w
  ∧ redis_keys (Db.upsert_restaurants data w).2 = redis_keys w
  ∧ (∀ e, (Db.upsert_restaurants data w).1 = Raise e →
       e = DBAPIError ∧ restaurants (Db.upsert_restaurants data w).2 = restaurants w)
  ∧ (∀ rows, (Db.upsert_restaurants data w).1 = Return rows →
       Some <$> (google_place_id <$> rows) = Db.d_google_place_id <$> data
       ∧ google_place_id <$> restaurants (Db.upsert_restaurants data w).2
         ≡ₚ (google_place_id <$> restaurants w)
            ++ filter (λ g, g ∉ google_place_id <$> restaurants w) (google_place_id <$> rows)
       ∧ filter (λ r, google_place_id r ∉ google_place_id <$> rows)
           (restaurants (Db.upsert_restaurants data w).2)
         ≡ₚ filter (λ r, google_place_id r ∉ google_place_id <$> rows) (restaurants w)).
Proof.
  intros Hnd. destruct (Db.upsert_restaurants data w) as [[rows|e] w'] eqn:E; simpl.
  - destruct (upsert_restaurants_returns _ _ _ _ E Hnd)
      as (Hd & Hrows & _ & _ & Hc & Hk & Hi & Hf & _).
    split_and!; try done.
    + rewrite Hi. apply NoDup_app. split_and!; [done| |by apply NoDup_filter].
      intros g Hg [Hn _]%list_elem_of_filter. done.
    + intros rows' [= <-]. split_and!; [done|by rewrite Hi|by rewrite Hf].
  - assert (data ≠ []) as Hne by (by intros ->).
    rewrite upsert_restaurants_run in E by done.
    assert (e = DBAPIError
            ∧ w' = add_event (Upsert (Db.d_google_place_id <$> data)) w) as [-> ->].
    { destruct (upsert_down (faults w)); [by injection E as <- <-|].
      destruct (Db.insert_on_conflict _ _ _) as [[[t u] returned]|]; [done|].
      by injection E as <- <-. }
    simpl. split_and!; try done. by intros e [= <-].
Qed.

(** X9: an upsert that returns gives one row for each element of the
    data, in order, and the row is in the table.  The row has the place id,
    the payload and the fetch time of the element; where the table had a
    row with that place id, the [id] and [created_at] are those of that
    row, otherwise the row was created now. *)
Theorem upsert_updates_or_inserts data w rows w' :
  Db.upsert_restaurants data w = (Return rows, w') →
  NoDup (google_place_id <$> restaurants w) →
  Forall2 (λ d x, upserted (now w) (restaurants w) d x ∧ x ∈ restaurants w') data rows.
Proof.
  intros E Hnd.
  by destruct (upsert_restaurants_returns _ _ _ _ E Hnd) as (_&_&_&_&_&_&_&_&?).
Qed.

Lemma get_restaurants_by_place_ids_run place_ids w :
  select_down (faults w) = false →
  (Db.get_restaurants_by_place_ids place_ids w).1
  = Return (filter (λ r, google_place_id r ∈ place_ids) (restaurants w))
  ∧ restaurants (Db.get_restaurants_by_place_ids place_ids w).2 = restaurants w
  ∧ nearby_query_cache (Db.get_restaurants_by_place_ids place_ids w).2
    = nearby_query_cache w
  ∧ redis_keys (Db.get_restaurants_by_place_ids place_ids w).2 = redis_keys w.
Proof.
  intros Hup. destruct place_ids as [|p place_ids].
  - simpl. split_and!; try done. f_equal. symmetry.
    induction (restaurants w) as [|r l IH]; [done|].
    rewrite filter_cons_False; [done|]. apply not_elem_of_nil.
  - unfold Db.get_restaurants_by_place_ids, step, log, modify, mbind, Async_bind, bind.
    simpl. by rewrite Hup.
Qed.

(** The rows of a table with unique place ids that carry the place ids of
    [rows], when [rows] are rows of the table. *)
Lemma filter_rows_permutation tbl (rows : list Restaurant) :
  NoDup (google_place_id <$> tbl) → NoDup (google_place_id <$> rows) →
  (∀ x, x ∈ rows → x ∈ tbl) →
  filter (λ r, google_place_id r ∈ google_place_id <$> rows) tbl ≡ₚ rows.
Proof.
  intros Htbl Hrows Hsub. apply NoDup_Permutation.
  - apply NoDup_filter. by eapply NoDup_fmap_1.
  - by eapply NoDup_fmap_1.
  - intros x. rewrite list_elem_of_filter. split.
    + intros [(y & Hg & Hy)%list_elem_of_fmap Hx].
      pose proof (Hsub y Hy) as Hy'.
      apply list_elem_of_split in Hy' as (l1 & l2 & ->).
      by rewrite (unique_row l1 y l2 x Htbl Hx Hg).
    + intros Hx. split; [by apply list_elem_of_fmap_2|by apply Hsub].
Qed.

(** X10: the rows an upsert returned are what a lookup of their place ids
    finds afterwards, up to the order of the table. *)
Theorem upsert_then_lookup_round_trip data w rows w' (dt : Z) f api :
  Db.upsert_restaurants data w = (Return rows, w') →
  NoDup (google_place_id <$> restaurants w) →
  select_down f = false →
  ∃ found,
    (Db.get_restaurants_by_place_ids (google_place_id <$> rows) (later dt f api w')).1
    = Return found
    ∧ found ≡ₚ rows.
Proof.
  intros E Hnd Hsel.
  destruct (upsert_restaurants_returns _ _ _ _ E Hnd)
    as (_ & Hrows & _ & _ & _ & _ & Hi & _ & Hall).
  destruct (get_restaurants_by_place_ids_run (google_place_id <$> rows)
              (later dt f api w') Hsel) as (-> & _).
  eexists. split; [done|]. simpl. apply filter_rows_permutation; [|done|].
  - rewrite Hi. apply NoDup_app. split_and!; [done| |by apply NoDup_filter].
    intros g Hg [Hn _]%list_elem_of_filter. done.
  - intros x Hx. apply list_elem_of_lookup in Hx as [i Hi'].
    destruct (Forall2_lookup_r _ _ _ _ _ Hall Hi') as (d & _ & _ & ?). done.
Qed.

(** X11: a second upsert of data with the same place ids, at any later
    time, inserts nothing: the rows it returns have the [id], the
    [created_at] and the place id of the rows of the first, and the payload
    and the fetch time of the new data. *)
Theorem upsert_again_keeps_identity data data' w rows w1 (dt : Z) f api :
  Db.upsert_restaurants data w = (Return rows, w1) →
  NoDup (google_place_id <$> restaurants w) →
  Db.d_google_place_id <$> data' = Db.d_google_place_id <$> data →
  upsert_down f = false →
  ∃ rows' w2,
    Db.upsert_restaurants data' (later dt f api w1) = (Return rows', w2)
    ∧ google_place_id <$> restaurants w2 = google_place_id <$> restaurants w1
    ∧ id <$> rows' = id <$> rows
    ∧ created_at <$> rows' = created_at <$> rows
    ∧ google_place_id <$> rows' = google_place_id <$> rows
    ∧ provider_payload <$> rows' = Db.d_provider_payload <$> data'
    ∧ last_fetched_at <$> rows' = Db.d_last_fetched_at <$> data'.
Proof.
  intros E Hnd Hsame Hup.
  destruct (upsert_restaurants_returns _ _ _ _ E Hnd)
    as (Hd & Hrows & _ & _ & _ & _ & Hi & _ & Hall).
  assert (NoDup (google_place_id <$> restaurants w1)) as Hnd1.
  { rewrite Hi. apply NoDup_app. split_and!; [done| |by apply NoDup_filter].
    intros g Hg [Hn _]%list_elem_of_filter. done. }
  destruct (decide (data' = [])) as [->|Hne].
  - destruct data; [|done]. apply Forall2_nil_inv_l in Hall as ->.
    exists [], (later dt f api w1). by split_and!.
  - pose proof (upsert_restaurants_run data' (later dt f api w1) Hne) as Hrun.
    simpl in Hrun. rewrite Hup in Hrun. unfold Db.insert_on_conflict in Hrun.
    rewrite Hsame, Hd in Hrun.
    rewrite (proj2 (mapM_fmap_Some_eq Db.d_google_place_id data'
                      (google_place_id <$> rows))) in Hrun by by rewrite Hsame.
    rewrite bool_decide_eq_true_2 in Hrun by done.
    destruct (Db.upsert_rows _ _ _) as [[t u] rows'] eqn:E2. rewrite Hrun.
    eexists rows', _. split; [done|].
    destruct (upsert_restaurants_returns data' (later dt f api w1) _ _ Hrun Hnd1)
      as (Hd' & _ & _ & _ & _ & _ & Hi' & _ & Hall').
    simpl in Hd', Hi', Hall'.
    assert (google_place_id <$> rows' = google_place_id <$> rows) as Hg.
    { rewrite Hsame, Hd in Hd'. by apply (inj (fmap Some)) in Hd'. }
    assert (Forall2 (λ x' x, id x' = id x ∧ created_at x' = created_at x) rows' rows) as Hj.
    { apply Forall2_same_length_lookup. split.
      - apply (f_equal length) in Hg. by rewrite !length_fmap in Hg.
      - intros i x' x Hx' Hx.
        destruct (Forall2_lookup_r _ _ _ _ _ Hall Hx) as (d & _ & _ & Hin).
        destruct (Forall2_lookup_r _ _ _ _ _ Hall' Hx') as (d' & _ & (_&_&_&Hold&_) & _).
        apply Hold; [done|].
        apply (f_equal (λ l, l !! i)) in Hg. rewrite !list_lookup_fmap, Hx, Hx' in Hg.
        simpl in Hg. congruence. }
    split_and!.
    + simpl. rewrite Hi'. rewrite Hg. rewrite <-(app_nil_r (google_place_id <$> _)) at 2.
      f_equal. clear -Hall. induction Hall as [|d x ds xs [_ Hx] _ IH]; [done|].
      rewrite fmap_cons, filter_cons_False; [done|].
      intros Hn. apply Hn. by apply list_elem_of_fmap_2.
    + apply Forall2_fmap_eq. eapply Forall2_impl; [exact Hj|]. by intros ?? [? _].
    + apply Forall2_fmap_eq. eapply Forall2_impl; [exact Hj|]. by intros ?? [_ ?].
    + done.
    + symmetry. apply Forall2_fmap_eq. eapply Forall2_impl; [exact Hall'|].
      by intros ?? [(_&?&_) _].
    + symmetry. apply Forall2_fmap_eq. eapply Forall2_impl; [exact Hall'|].
      by intros ?? [(_&_&?&_) _].
Qed.

Lemma get_stale_restaurants_run place_ids (n : Z) w :
  select_down (faults w) = false →
  (Db.get_stale_restaurants place_ids n w).1
  = Return (filter (λ pid, pid ∉ google_place_id <$>
                              filter (λ r, google_place_id r ∈ place_ids
                                           ∧ now w - Db.days n < last_fetched_at r)
                                (restaurants w)) place_ids)
  ∧ restaurants (Db.get_stale_restaurants place_ids n w).2 = restaurants w.
Proof.
  intros Hup. destruct place_ids as [|p place_ids]; [done|].
  unfold Db.get_stale_restaurants, step, log, modify, mbind, Async_bind, bind.
  simpl. by rewrite Hup.
Qed.

Lemma filter_none {A} (P : A → Prop) `{!∀ x, Decision (P x)} (l : list A) :
  (∀ x, x ∈ l → ¬ P x) → filter P l = [].
Proof.
  induction l as [|x l IH]; intros Hl; [done|].
  rewrite filter_cons_False by (apply Hl; by left). apply IH. intros y Hy. apply Hl. by right.
Qed.

Lemma filter_all {A} (P : A → Prop) `{!∀ x, Decision (P x)} (l : list A) :
  (∀ x, x ∈ l → P x) → filter P l = l.
Proof.
  induction l as [|x l IH]; intros Hl; [done|].
  rewrite filter_cons_True by (apply Hl; by left). f_equal. apply IH.
  intros y Hy. apply Hl. by right.
Qed.

(** X12: the ids reported stale are the input with the ids dropped for
    which the table has a row fetched after the cutoff: each other id
    stays where it was, as many times as it was given; an id without
    any row is among them.  The table is only read. *)
Theorem stale_ids_have_no_fresh_row place_ids (max_age_days : Z) w :
  select_down (faults w) = false →
  Db.cutoff_representable (now w) max_age_days →
  ∃ stale,
    (Db.get_stale_restaurants place_ids max_age_days w).1 = Return stale
    ∧ stale
      = filter (λ pid, Forall (λ r, google_place_id r = pid →
                                    last_fetched_at r ≤ now w - Db.days max_age_days)
                         (restaurants w))
          place_ids
    ∧ (∀ pid, pid ∈ stale ↔
         pid ∈ place_ids
         ∧ ∀ r, r ∈ restaurants w → google_place_id r = pid →
                last_fetched_at r ≤ now w - Db.days max_age_days)
    ∧ (∀ pid, pid ∈ place_ids → (pid ∉ google_place_id <$> restaurants w) → pid ∈ stale)
    ∧ restaurants (Db.get_stale_restaurants place_ids max_age_days w).2 = restaurants w.
Proof.
  intros Hsel _.
  destruct (get_stale_restaurants_run place_ids max_age_days w Hsel) as [-> Hw].
  eexists. split; [done|].
  assert (∀ pid, pid ∈ place_ids →
            (pid ∉ google_place_id <$>
                     filter (λ r, google_place_id r ∈ place_ids
                                  ∧ now w - Db.days max_age_days < last_fetched_at r)
                       (restaurants w))
            ↔ ∀ r, r ∈ restaurants w → google_place_id r = pid →
                   last_fetched_at r ≤ now w - Db.days max_age_days) as Hchar.
  { intros pid Hpid. split.
    - intros Hn r Hr Hg.
      destruct (Z.le_gt_cases (last_fetched_at r) (now w - Db.days max_age_days)); [done|].
      exfalso. apply Hn. rewrite <-Hg. apply list_elem_of_fmap_2.
      apply list_elem_of_filter. split; [|done]. split; [by rewrite Hg|lia].
    - intros Hall (r & -> & [[_ Hlf] Hr]%list_elem_of_filter)%list_elem_of_fmap.
      specialize (Hall r Hr eq_refl). lia. }
  split_and!; [| | |done].
  - apply filter_ext_elem. intros pid Hpid. rewrite Forall_forall. by apply Hchar.
  - intros pid. rewrite list_elem_of_filter. split.
    + intros [Hn Hpid]. split; [done|]. by apply Hchar.
    + intros [Hpid Hall]. split; [|done]. by apply Hchar.
  - intros pid Hpid Hn. apply list_elem_of_filter. split; [|done].
    apply Hchar; [done|]. intros r Hr Hg. exfalso. apply Hn. rewrite <-Hg.
    by apply list_elem_of_fmap_2.
Qed.

(** X13: rows upserted with the fetch time of the statement are fresh
    until [max_age_days] have passed, and stale from then on. *)
Theorem upserted_rows_are_fresh_until_max_age
    data w rows w' (dt max_age_days : Z) f api :
  Db.upsert_restaurants data w = (Return rows, w') →
  NoDup (google_place_id <$> restaurants w) →
  Forall (λ d, Db.d_last_fetched_at d = now w) data →
  select_down f = false →
  Db.cutoff_representable (now w + dt) max_age_days →
  (Db.get_stale_restaurants (google_place_id <$> rows) max_age_days
     (later dt f api w')).1
  = Return (if dt <? Db.days max_age_days then [] else google_place_id <$> rows).
Proof.
  intros E Hnd Hnow Hsel _.
  destruct (upsert_restaurants_returns _ _ _ _ E Hnd)
    as (_ & Hrows & _ & Hn & _ & _ & Hi & _ & Hall).
  assert (NoDup (google_place_id <$> restaurants w')) as Hnd'.
  { rewrite Hi. apply NoDup_app. split_and!; [done| |by apply NoDup_filter].
    intros g Hg [Hn' _]%list_elem_of_filter. done. }
  assert (∀ x, x ∈ rows → x ∈ restaurants w' ∧ last_fetched_at x = now w) as Hx.
  { intros x [i Hi']%list_elem_of_lookup.
    destruct (Forall2_lookup_r _ _ _ _ _ Hall Hi') as (d & Hd & (_&_&Hlf&_) & Hin).
    split; [done|]. rewrite Hlf. by eapply (proj1 (Forall_lookup _ _) Hnow). }
  destruct (get_stale_restaurants_run (google_place_id <$> rows) max_age_days
              (later dt f api w') Hsel) as [-> _].
  simpl. rewrite Hn. f_equal. destruct (Z.ltb_spec dt (Db.days max_age_days)) as [Hlt|Hge].
  - apply filter_none. intros pid (x & -> & Hin)%list_elem_of_fmap Hnot.
    apply Hnot. apply list_elem_of_fmap_2. destruct (Hx x Hin) as [Hin' Hlf].
    apply list_elem_of_filter. split; [|done].
    split; [by apply list_elem_of_fmap_2|lia].
  - apply filter_all. intros pid (x & -> & Hin)%list_elem_of_fmap.
    intros (r & Hg & [[_ Hlf] Hr]%list_elem_of_filter)%list_elem_of_fmap.
    destruct (Hx x Hin) as [Hin' Hlfx].
    apply list_elem_of_split in Hin' as (l1 & l2 & Heq). rewrite Heq in Hnd', Hr.
    rewrite (unique_row l1 x l2 r Hnd' Hr) in Hlf by done. lia.
Qed.

End DbMore.

(** ** The endpoints: hits, misses, failures of the stores *)

Section EndpointMore.

Implicit Types (settings : Settings) (cache : CacheBackend)
  (request : Main.NearbySearchRequest) (x_skip_cache : option string) (w : World).

Ltac run1 :=
  unfold PostgresCache.get, PostgresCache.set, PostgresCache.session,
    RedisCache.get, RedisCache.set, RedisCache.connect, RedisCache.command,
    try_except, lift, step, log, modify, ask, raise,
    mbind, mret, Async_bind, Async_ret, bind, ret in *; simpl in *.
Ltac run := do 2 run1.



Lemma cache_set_run cache (key : string) (ids : list string) (ttl : Z) w :
  cache_set cache key ids ttl w
  = match cache with
    | Postgres =>
        if cache_session_down (faults w)
        then (Raise DBAPIError, add_event (CacheSet key ids ttl) w)
        else (Return tt,
              set_nearby_query_cache
                (<[key := CacheRow ids (now w + seconds ttl)]> (nearby_query_cache w))
                (add_event (CacheSet key ids ttl) w))
    | Redis =>
        (Return tt,
         if redis_down (faults w) || (ttl <=? 0)
         then add_event (CacheSet key ids ttl) w
         else set_redis_keys (<[key := (ids, now w + seconds ttl)]> (redis_keys w))
                (add_event (CacheSet key ids ttl) w))
    end.
Proof.
  destruct cache; unfold cache_set; run.
  - by destruct (cache_session_down (faults w)).
  - destruct (redis_down (faults w)); [done|]. simpl. by destruct (ttl <=? 0).
Qed.


(** The endpoint on a cache hit. *)
Lemma endpoint_hit settings cache request x_skip_cache w (ids : list string) :
  get_cache settings = Return cache →
  x_skip_cache ≠ Some "true"%string →
  (cache_get cache (key_of request) w).1 = Return (Some ids) →
  Main.search_nearby_restaurants settings request x_skip_cache w
  = match Db.get_restaurants_by_place_ids ids (add_event (CacheGet (key_of request)) w) with
    | (Return rows, w') => (Return (cached_response request rows), w')
    | (Raise e, w') => (Raise e, w')
    end.
Proof.
  intros Hc Hs Hget.
  unfold Main.search_nearby_restaurants, cached_response. fold (key_of request). rewrite Hc.
  rewrite !bool_decide_false by done.
  pose proof (cache_get_world cache (key_of request) w) as Hw.
  unfold mbind at 1, Async_bind, bind, lift.
  unfold mbind at 1, Async_bind, bind.
  unfold mbind at 1, Async_bind, bind.
  destruct (cache_get cache (key_of request) w) as [o w1]. simpl in *. subst o w1.
  unfold mbind, Async_bind, bind.
  by destruct (Db.get_restaurants_by_place_ids ids _) as [[rows|e] w1].
Qed.


Lemma upsert_restaurants_frame (data : list Db.restaurant_data) w :
  faults (Db.upsert_restaurants data w).2 = faults w
  ∧ now (Db.upsert_restaurants data w).2 = now w
  ∧ trace (Db.upsert_restaurants data w).2
    = trace w ++ match data with
                 | [] => []
                 | _ => [Upsert (Db.d_google_place_id <$> data)]
                 end.
Proof.
  destruct (decide (data = [])) as [->|Hne].
  - simpl. by rewrite app_nil_r.
  - rewrite upsert_restaurants_run by done.
    destruct (upsert_down (faults w)); [by destruct data|].
    destruct (Db.insert_on_conflict _ _ _) as [[[t u] returned]|]; by destruct data.
Qed.




Lemma cache_set_frame cache (key : string) (ids : list string) (ttl : Z) w :
  trace (cache_set cache key ids ttl w).2 = trace w ++ [CacheSet key ids ttl]
  ∧ restaurants (cache_set cache key ids ttl w).2 = restaurants w
  ∧ (cache_session_down (faults w) = true →
     nearby_query_cache (cache_set cache key ids ttl w).2 = nearby_query_cache w)
  ∧ (redis_down (faults w) = true →
     redis_keys (cache_set cache key ids ttl w).2 = redis_keys w).
Proof.
  rewrite cache_set_run. destruct cache.
  - destruct (cache_session_down (faults w)); by split_and!.
  - destruct (redis_down (faults w)); simpl; [by split_and!|].
    destruct (ttl <=? 0); by split_and!.
Qed.

(** The endpoint when the cache read raises. *)
Lemma endpoint_read_fails settings cache request x_skip_cache w e :
  get_cache settings = Return cache →
  x_skip_cache ≠ Some "true"%string →
  (cache_get cache (key_of request) w).1 = Raise e →
  Main.search_nearby_restaurants settings request x_skip_cache w
  = (Raise e, add_event (CacheGet (key_of request)) w).
Proof.
  intros Hc Hs Hget.
  unfold Main.search_nearby_restaurants. fold (key_of request). rewrite Hc.
  rewrite !bool_decide_false by done.
  pose proof (cache_get_world cache (key_of request) w) as Hw.
  unfold mbind at 1, Async_bind, bind, lift.
  unfold mbind at 1, Async_bind, bind.
  unfold mbind at 1, Async_bind, bind.
  destruct (cache_get cache (key_of request) w) as [o w1]. simpl in *. by subst o w1.
Qed.

(** What the second half of the endpoint puts on record. *)
Lemma store_and_cache_events settings cache request places m w :
  ∃ evs, trace (store_and_cache settings cache request places m w).2 = trace w ++ evs
         ∧ ∀ ev, ev ∈ evs →
             (∃ gids, ev = Upsert gids) ∨ (∃ key ids ttl, ev = CacheSet key ids ttl).
Proof.
  rewrite store_and_cache_run.
  destruct (omapM _ places) as [data|e].
  2:{ exists []. split; [by rewrite app_nil_r|]. by intros ev ?%elem_of_nil. }
  pose proof (upsert_restaurants_frame data w) as (_ & _ & Ht).
  destruct (Db.upsert_restaurants _ w) as [[rows|e] w1]; simpl in Ht.
  - pose proof (cache_set_frame cache (key_of request) (google_place_id <$> rows)
                  (nearby_cache_ttl_seconds settings) w1) as (Ht2 & _).
    exists (match data with
            | [] => []
            | _ => [Upsert (Db.d_google_place_id <$> data)]
            end
            ++ [CacheSet (key_of request) (google_place_id <$> rows)
                  (nearby_cache_ttl_seconds settings)]).
    split.
    + destruct (cache_set _ _ _ _ w1) as [[[]|e] w2]; simpl in *;
        by rewrite Ht2, Ht, <-app_assoc.
    + intros ev [Hev|Hev%list_elem_of_singleton]%elem_of_app; [|right; eauto].
      left. destruct data; [by apply elem_of_nil in Hev|].
      apply list_elem_of_singleton in Hev. eauto.
  - eexists. split; [exact Ht|]. intros ev Hev. left.
    destruct data; [by apply elem_of_nil in Hev|].
    apply list_elem_of_singleton in Hev. eauto.
Qed.

(** X17: only the header value ["true"] skips the cache read.  With it,
    the first call of the request is the provider search, no cache read
    and no lookup follow, and what is returned is never marked [cached];
    with any other value, or none, the first call is the cache read. *)
Theorem skip_header_bypasses_cache_read settings cache request w :
  get_cache settings = Return cache →
  (∃ evs,
     trace (Main.search_nearby_restaurants settings request (Some "true"%string) w).2
     = trace w ++ ProviderSearch :: evs
     ∧ (∀ key, CacheGet key ∉ evs) ∧ (∀ ids, Lookup ids ∉ evs))
  ∧ (∀ resp,
       (Main.search_nearby_restaurants settings request (Some "true"%string) w).1
       = Return resp →
       Main.cached resp = false)
  ∧ (∀ h, h ≠ Some "true"%string →
       ∃ evs, trace (Main.search_nearby_restaurants settings request h w).2
              = trace w ++ CacheGet (key_of request) :: evs).
Proof.
  intros Hc.
  assert (reaches_provider cache request (Some "true"%string) w) as Hreach by by left.
  assert (trace (asked request (Some "true"%string) w) = trace w ++ [ProviderSearch])
    as Hasked.
  { rewrite asked_trace. unfold lookup_events. by rewrite bool_decide_eq_true_2. }
  split_and!.
  - rewrite (endpoint_miss _ _ _ _ _ Hc Hreach).
    destruct (provider_result request w) as [[[|p ps] m]|e]; simpl.
    + exists []. split; [done|]. split; intros ?; apply not_elem_of_nil.
    + destruct (store_and_cache_events settings cache request (p :: ps) m
                  (asked request (Some "true"%string) w)) as (evs & -> & Hevs).
      exists evs. rewrite Hasked, <-app_assoc. split; [done|].
      split; intros ? Hin; apply Hevs in Hin as [[? ?]|(? & ? & ? & ?)]; done.
    + exists []. split; [done|]. split; intros ?; apply not_elem_of_nil.
  - rewrite (endpoint_miss _ _ _ _ _ Hc Hreach).
    destruct (provider_result request w) as [[[|p ps] m]|e]; simpl.
    + by intros resp [= <-].
    + rewrite store_and_cache_run.
      destruct (omapM _ _) as [data|e]; [|done].
      destruct (Db.upsert_restaurants _ _) as [[rows|e] w1]; [|done].
      destruct (cache_set _ _ _ _ w1) as [[[]|e] w2]; [|done].
      by intros resp [= <-].
    + done.
  - intros h Hh.
    destruct (cache_get cache (key_of request) w) as [[[ids|]|e] w1] eqn:E.
    + rewrite (endpoint_hit settings cache request h w ids Hc Hh) by by rewrite E.
      destruct ids as [|i ids].
      * exists []. done.
      * unfold Db.get_restaurants_by_place_ids. run.
        exists [Lookup (i :: ids)].
        destruct (select_down (faults w)); simpl; by rewrite <-app_assoc.
    + assert (reaches_provider cache request h w) as Hr by (right; by rewrite E).
      destruct (endpoint_asks_provider settings cache request h w Hc Hr) as [evs ->].
      unfold lookup_events. rewrite bool_decide_eq_false_2 by done. simpl.
      by eexists.
    + rewrite (endpoint_read_fails settings cache request h w e Hc Hh) by by rewrite E.
      exists []. done.
Qed.

(** X18: with the Postgres cache, a failing cache session fails the
    request at the cache read: the exception is not turned into an
    [HTTPException], the client sees a 500, the provider is not called and
    nothing is stored. *)
Theorem postgres_cache_read_failure_fails_request settings request x_skip_cache w :
  get_cache settings = Return Postgres →
  x_skip_cache ≠ Some "true"%string →
  cache_session_down (faults w) = true →
  Main.search_nearby_restaurants settings request x_skip_cache w
  = (Raise DBAPIError, add_event (CacheGet (key_of request)) w)
  ∧ Main.http_status (Main.search_nearby_restaurants settings request x_skip_cache w).1
    = 500
  ∧ trace (Main.search_nearby_restaurants settings request x_skip_cache w).2
    = trace w ++ [CacheGet (key_of request)].
Proof.
  intros Hc Hs Hdown.
  rewrite (endpoint_read_fails settings Postgres request x_skip_cache w DBAPIError Hc Hs).
  - done.
  - unfold cache_get. run. by rewrite Hdown.
Qed.





(** X26: the GET endpoint is the POST endpoint on a request without
    types, with the cache read never skipped; an empty list of types is
    the same request: the same key, the same groups, the same answer. *)
Theorem get_endpoint_is_post_without_types settings (lat lng : coord)
    (radius max_results : Z) w :
  Main.search_nearby_get settings lat lng radius max_results w
  = Main.search_nearby_restaurants settings
      {| Main.location_lat := lat; Main.location_lng := lng; Main.radius := radius;
         Main.max_results := max_results; Main.included_types := Some [] |}
      None w
  ∧ key_of {| Main.location_lat := lat; Main.location_lng := lng; Main.radius := radius;
              Main.max_results := max_results; Main.included_types := Some [] |}
    = key_of {| Main.location_lat := lat; Main.location_lng := lng; Main.radius := radius;
                Main.max_results := max_results; Main.included_types := None |}
  ∧ ∀ h, h ≠ Some "true"%string →
      Main.search_nearby_restaurants settings
        {| Main.location_lat := lat; Main.location_lng := lng; Main.radius := radius;
           Main.max_results := max_results; Main.included_types := None |}
        h w
      = Main.search_nearby_get settings lat lng radius max_results w.
Proof.
  split; [done|]. split; [done|]. intros h Hh.
  unfold Main.search_nearby_get, Main.search_nearby_restaurants.
  rewrite (bool_decide_eq_false_2 (h = Some "true"%string)) by done.
  by rewrite (bool_decide_eq_false_2 (None = Some "true"%string)) by done.
Qed.

Lemma upsert_restaurants_unique (data : list Db.restaurant_data) w :
  NoDup (google_place_id <$> restaurants w) →
  NoDup (google_place_id <$> restaurants (Db.upsert_restaurants data w).2).
Proof.
  intros Hnd. destruct (Db.upsert_restaurants data w) as [[rows|e] w'] eqn:E.
  - destruct (upsert_restaurants_returns _ _ _ _ E Hnd) as (_& Hrows &_&_&_&_& Hi &_&_).
    simpl. rewrite Hi. apply NoDup_app. split_and!; [done| |by apply NoDup_filter].
    intros g Hg [Hn' _]%list_elem_of_filter. done.
  - assert (data ≠ []) as Hne by (by intros ->).
    rewrite upsert_restaurants_run in E by done.
    destruct (upsert_down (faults w)); [by injection E as <- <-|].
    destruct (Db.insert_on_conflict _ _ _) as [[[t u] returned]|]; [done|].
    by injection E as <- <-.
Qed.

Lemma upsert_restaurants_raises (data : list Db.restaurant_data) w e :
  (Db.upsert_restaurants data w).1 = Raise e → e = DBAPIError.
Proof.
  destruct (decide (data = [])) as [->|Hne]; [done|].
  rewrite upsert_restaurants_run by done.
  destruct (upsert_down (faults w)); [by intros [= <-]|].
  destruct (Db.insert_on_conflict _ _ _) as [[[t u] returned]|]; [done|].
  by intros [= <-].
Qed.

Lemma get_restaurants_by_place_ids_frame (place_ids : list string) w :
  restaurants (Db.get_restaurants_by_place_ids place_ids w).2 = restaurants w
  ∧ ∀ e, (Db.get_restaurants_by_place_ids place_ids w).1 = Raise e → e = DBAPIError.
Proof.
  destruct place_ids as [|p place_ids]; [done|].
  unfold Db.get_restaurants_by_place_ids. run.
  destruct (select_down (faults w)); simpl; [|done]. split; [done|]. by intros e [= <-].
Qed.

Lemma cache_get_raises cache (key : string) w e :
  (cache_get cache key w).1 = Raise e → e = DBAPIError.
Proof.
  destruct cache; unfold cache_get; run.
  - destruct (cache_session_down (faults w)); simpl; [by intros [= <-]|].
    destruct (nearby_query_cache w !! key) as [entry|]; [|done].
    by destruct (now w <? expires_at entry).
  - destruct (redis_down (faults w)); [done|]. simpl.
    by destruct (RedisCache.live _ key).
Qed.

(** X27: once a request has reached the handler, the search endpoint has
    three outcomes for the client, whatever the request, the header and
    the state of the services: 200, 500 and 503.  A 503 is given only when
    the provider client raised, and then nothing was stored. *)
Theorem search_endpoint_status_codes settings request x_skip_cache w :
  (Main.http_status (Main.search_nearby_restaurants settings request x_skip_cache w).1 = 200
   ∨ Main.http_status (Main.search_nearby_restaurants settings request x_skip_cache w).1
     = 500
   ∨ Main.http_status (Main.search_nearby_restaurants settings request x_skip_cache w).1
     = 503)
  ∧ (Main.http_status (Main.search_nearby_restaurants settings request x_skip_cache w).1
     = 503 →
     (∃ e, provider_result request w = Raise e)
     ∧ restaurants (Main.search_nearby_restaurants settings request x_skip_cache w).2
       = restaurants w).
Proof.
  assert (∀ cache, get_cache settings = Return cache →
            reaches_provider cache request x_skip_cache w →
            (Main.http_status
               (Main.search_nearby_restaurants settings request x_skip_cache w).1 = 200
             ∨ Main.http_status
                 (Main.search_nearby_restaurants settings request x_skip_cache w).1 = 500
             ∨ Main.http_status
                 (Main.search_nearby_restaurants settings request x_skip_cache w).1 = 503)
            ∧ (Main.http_status
                 (Main.search_nearby_restaurants settings request x_skip_cache w).1 = 503 →
               (∃ e, provider_result request w = Raise e)
               ∧ restaurants
                   (Main.search_nearby_restaurants settings request x_skip_cache w).2
                 = restaurants w)) as Hmiss.
  { intros cache Hc Hreach. rewrite (endpoint_miss _ _ _ _ _ Hc Hreach).
    destruct (asked_state request x_skip_cache w) as (_ & Hr & _).
    destruct (provider_result request w) as [[[|p ps] m]|e]; simpl.
    - split; [by left|done].
    - rewrite store_and_cache_run.
      destruct (omapM _ _) as [data|e]; [|simpl; split; [by auto|done]].
      destruct (Db.upsert_restaurants _ _) as [[rows|e] w1]; simpl.
      + destruct (cache_set _ _ _ _ w1) as [[[]|e] w2]; simpl;
          (split; [by auto|done]).
      + split; [by auto|done].
    - split; [by auto|]. intros _. split; [by eexists|done]. }
  destruct (get_cache settings) as [cache|e] eqn:Hc.
  - destruct (decide (x_skip_cache = Some "true"%string)) as [Hs|Hs].
    + apply (Hmiss cache eq_refl). by left.
    + destruct (cache_get cache (key_of request) w) as [[[ids|]|e] w1] eqn:E.
      * rewrite (endpoint_hit settings cache request x_skip_cache w ids Hc Hs)
          by by rewrite E.
        destruct (get_restaurants_by_place_ids_frame ids
                    (add_event (CacheGet (key_of request)) w)) as [_ Hraise].
        destruct (Db.get_restaurants_by_place_ids ids _) as [[rows|e] w2]; simpl.
        -- split; [by left|done].
        -- rewrite (Hraise e eq_refl). simpl. split; [by auto|done].
      * apply (Hmiss cache eq_refl). right. by rewrite E.
      * rewrite (endpoint_read_fails settings cache request x_skip_cache w e Hc Hs)
          by by rewrite E.
        rewrite (cache_get_raises cache (key_of request) w e) by by rewrite E.
        simpl. split; [by auto|done].
  - unfold Main.search_nearby_restaurants. rewrite Hc.
    unfold lift, mbind, Async_bind, bind. simpl.
    assert (e = ValueError) as ->.
    { unfold get_cache in Hc. case_bool_decide; [|done].
      destruct (redis_url settings) as [[|]|]; congruence. }
    simpl. split; [by auto|done].
Qed.

(** X28: the search endpoint keeps the place ids of the restaurant table
    unique, whatever its outcome. *)
Theorem search_endpoint_keeps_place_ids_unique settings request x_skip_cache w :
  NoDup (google_place_id <$> restaurants w) →
  NoDup (google_place_id <$>
           restaurants (Main.search_nearby_restaurants settings request x_skip_cache w).2).
Proof.
  intros Hnd.
  assert (∀ cache, get_cache settings = Return cache →
            reaches_provider cache request x_skip_cache w →
            NoDup (google_place_id <$>
                     restaurants
                       (Main.search_nearby_restaurants settings request x_skip_cache w).2))
    as Hmiss.
  { intros cache Hc Hreach. rewrite (endpoint_miss _ _ _ _ _ Hc Hreach).
    destruct (asked_state request x_skip_cache w) as (_ & Hr & _).
    destruct (provider_result request w) as [[[|p ps] m]|e]; cbn [fst snd];
      try by rewrite Hr.
    rewrite store_and_cache_run.
    destruct (omapM _ _) as [data|e]; [|cbn [fst snd]; by rewrite Hr].
    pose proof (upsert_restaurants_unique data (asked request x_skip_cache w)) as Hu.
    rewrite Hr in Hu. specialize (Hu Hnd).
    destruct (Db.upsert_restaurants _ _) as [[rows|e] w1]; [|done].
    pose proof (cache_set_frame cache (key_of request) (google_place_id <$> rows)
                  (nearby_cache_ttl_seconds settings) w1) as (_ & Hrest & _).
    destruct (cache_set _ _ _ _ w1) as [[[]|e] w2]; simpl in *; by rewrite Hrest. }
  destruct (get_cache settings) as [cache|e] eqn:Hc.
  - destruct (decide (x_skip_cache = Some "true"%string)) as [Hs|Hs].
    + apply (Hmiss cache eq_refl). by left.
    + destruct (cache_get cache (key_of request) w) as [[[ids|]|e] w1] eqn:E.
      * rewrite (endpoint_hit settings cache request x_skip_cache w ids Hc Hs)
          by by rewrite E.
        destruct (get_restaurants_by_place_ids_frame ids
                    (add_event (CacheGet (key_of request)) w)) as [Hrest _].
        destruct (Db.get_restaurants_by_place_ids ids _) as [[rows|e] w2];
          simpl in *; by rewrite Hrest.
      * apply (Hmiss cache eq_refl). right. by rewrite E.
      * by rewrite (endpoint_read_fails settings cache request x_skip_cache w e Hc Hs)
          by by rewrite E.
  - unfold Main.search_nearby_restaurants. rewrite Hc.
    by unfold lift, mbind, Async_bind, bind.
Qed.


End EndpointMore.

(** ** Health and maintenance endpoints *)

Section AdminMore.

Implicit Types (settings : Settings) (w : World).

(** X21: the health endpoint never raises and changes nothing.  When
    the statement of the probe runs it answers [healthy] and [connected];
    when the statement raises it still answers, with [degraded] and
    [disconnected]; the timestamp is the current time. *)
Theorem health_check_never_raises (probe_fails : bool) w :
  ∃ r, Main.health_check probe_fails w = (Return r, w)
       ∧ Main.timestamp r = now w
       ∧ Main.status r = (if probe_fails then "degraded" else "healthy")%string
       ∧ Main.database r = (if probe_fails then "disconnected" else "connected")%string
       ∧ (Main.status r = "healthy"%string ↔ probe_fails = false)
       ∧ (Main.database r = "connected"%string ↔ probe_fails = false).
Proof.
  unfold Main.health_check, Db.check_db_connection, try_except, step, ask,
    mbind, mret, Async_bind, Async_ret, bind, ret.
  destruct probe_fails; simpl; eexists; (split; [done|]); simpl;
    split_and!; try done; split; done.
Qed.

(** X22: the clear-all endpoint never raises.  When its statement runs
    it reports the number of rows of the Postgres cache table, expired or
    not, and leaves the table empty, so that every key misses afterwards;
    when the statement fails it reports 0 and the error, and the table is
    as before.  In neither case does it touch the keys of a Redis cache or
    the restaurants. *)
Theorem clear_all_cache_empties_postgres_only (statement_fails : bool) w :
  ∃ r,
    (Main.admin_clear_all_cache statement_fails w).1 = Return r
    ∧ (statement_fails = false →
       Main.deleted_entries r = Z.of_nat (size (nearby_query_cache w))
       ∧ Main.error r = None
       ∧ nearby_query_cache (Main.admin_clear_all_cache statement_fails w).2 = ∅
       ∧ ∀ (key : string) (dt : Z) f api, cache_session_down f = false →
           (PostgresCache.get key
              (later dt f api (Main.admin_clear_all_cache statement_fails w).2)).1
           = Return None)
    ∧ (statement_fails = true →
       Main.deleted_entries r = 0
       ∧ Main.error r = Some DBAPIError
       ∧ nearby_query_cache (Main.admin_clear_all_cache statement_fails w).2
         = nearby_query_cache w)
    ∧ redis_keys (Main.admin_clear_all_cache statement_fails w).2 = redis_keys w
    ∧ (∀ key, cache_live Redis key (Main.admin_clear_all_cache statement_fails w).2
              = cache_live Redis key w)
    ∧ restaurants (Main.admin_clear_all_cache statement_fails w).2 = restaurants w.
Proof.
  unfold Main.admin_clear_all_cache, try_except, step, mbind, mret, Async_bind, Async_ret,
    bind, ret.
  destruct statement_fails; simpl; eexists; (split; [done|]); simpl; split_and!; try done.
  intros _. split_and!; try done.
  intros key dt f api Hf.
  unfold PostgresCache.get, PostgresCache.session, log, modify, ask,
    mbind, mret, Async_bind, Async_ret, bind, ret. simpl. rewrite Hf. simpl.
  by rewrite lookup_empty.
Qed.

(** X23: the cleanup endpoint changes nothing a reader of the cache can
    see, whatever the backend and whether or not the sweep raises; with
    the Redis backend it does nothing at all and reports 0; with a
    configuration that selects no usable backend it raises the
    [ValueError] of [get_cache], which the client sees as a 500. *)
Theorem cleanup_endpoint_is_invisible_to_readers settings w :
  (∀ cache, get_cache settings = Return cache →
     ∀ key, cache_live cache key (Main.admin_cleanup_cache settings w).2
            = cache_live cache key w)
  ∧ (get_cache settings = Return Redis →
     Main.admin_cleanup_cache settings w = (Return 0, w))
  ∧ (∀ e, get_cache settings = Raise e →
     e = ValueError
     ∧ Main.admin_cleanup_cache settings w = (Raise ValueError, w)
     ∧ Main.http_status (Main.admin_cleanup_cache settings w).1 = 500).
Proof.
  unfold Main.admin_cleanup_cache, lift, mbind, Async_bind, bind.
  split_and!.
  - intros cache -> key. destruct cache; simpl; [|done].
    unfold PostgresCache.cleanup_expired, PostgresCache.session, modify, ask,
      mbind, mret, Async_bind, Async_ret, bind, ret.
    destruct (cache_session_down (faults w)); simpl; [done|].
    destruct (nearby_query_cache w !! key) as [row|] eqn:E.
    + destruct (Z.ltb_spec (now w) (expires_at row)) as [Hlive|Hdead].
      * rewrite (proj2 (map_lookup_filter_Some _ _ key row)) by done.
        by rewrite (proj2 (Z.ltb_lt _ _)) by done.
      * rewrite (proj2 (map_lookup_filter_None _ _ key)); [done|].
        right. intros row' ?. simplify_eq. simpl. lia.
    + rewrite (proj2 (map_lookup_filter_None _ _ key)); [done|]. by left.
  - by intros ->.
  - intros e He.
    assert (e = ValueError) as ->.
    { unfold get_cache in He. case_bool_decide; [|done].
      destruct (redis_url settings) as [[|]|]; congruence. }
    by rewrite He.
Qed.

End AdminMore.

(** ** The provider payload: what [parse_google_place] accepts *)

Section PayloadMore.
Import Payload.

(** X24: [parse_google_place] raises in two cases only.  It raises
    [AttributeError] exactly when the place has a ["location"] member
    that is not an object; a place without the member is parsed.  With
    the location in order it raises [TypeError] exactly when the
    ["priceLevel"] member is a non-empty list or object.  It raises
    nothing else. *)
Theorem parse_google_place_raises_iff (now : Z) (place : object) :
  (parse_google_place now place = Raise AttributeError
   ↔ ∃ v, member "location"%string place = Some v ∧ ∀ o, v ≠ JObj o)
  ∧ (parse_google_place now place = Raise TypeError
     ↔ (member "location"%string place = None
        ∨ ∃ o, member "location"%string place = Some (JObj o))
       ∧ ∃ v, member "priceLevel"%string place = Some v
              ∧ ((∃ x l, v = JArr (x :: l)) ∨ (∃ x o, v = JObj (x :: o))))
  ∧ (∀ e, parse_google_place now place = Raise e → e = AttributeError ∨ e = TypeError)
  ∧ (member "location"%string place = None →
     member "priceLevel"%string place = None →
     ∃ d, parse_google_place now place = Return d
          ∧ lat d = JNull ∧ lng d = JNull ∧ price_level d = None).
Proof.
  unfold parse_google_place, dict_get_default, dict_get, py_get, price_level_map_get.
  destruct (member "location"%string place) as [[|lb|lq|ls|ll|loc]|] eqn:El; simpl;
    destruct (member "priceLevel"%string place) as [[|b|q|s|[|x l]|[|x o]]|] eqn:Ep; simpl;
    try destruct b; try destruct (negb (Qnum q =? 0));
    try destruct (negb (bool_decide (s = ""%string)));
    (split_and!; [split; [try done; eauto|naive_solver]
                 |split; [try done; naive_solver|naive_solver]
                 |naive_solver
                 |try done; intros _ _; eexists; by split_and!]).
Qed.

Lemma price_level_map_tiers (s : string) (n : Z) :
  assoc s price_level_map = Some n →
  0 ≤ n ≤ 4 ∧ (n = 0 ↔ s = "PRICE_LEVEL_FREE"%string).
Proof.
  unfold price_level_map. simpl.
  repeat case_bool_decide; try done; intros [= <-]; subst s; (split; [lia|]); by split.
Qed.

(** X25: the price level of a parsed place is the tier of its
    ["priceLevel"] string in the provider's enumeration: a number from 0
    to 4, 0 only for [PRICE_LEVEL_FREE], and none when the member is
    missing, is not a string, or is no tier.  The place itself is kept as
    the payload, and the fetch time is the time of parsing. *)
Theorem parsed_price_level_is_a_tier (now : Z) (place : object) (d : restaurant_dict) :
  parse_google_place now place = Return d →
  (∀ n, price_level d = Some n ↔
        ∃ s, member "priceLevel"%string place = Some (JStr s)
             ∧ assoc s price_level_map = Some n)
  ∧ (∀ n, price_level d = Some n → 0 ≤ n ≤ 4)
  ∧ (price_level d = Some 0
     ↔ member "priceLevel"%string place = Some (JStr "PRICE_LEVEL_FREE"%string))
  ∧ provider_payload d = place
  ∧ last_fetched_at d = now
  ∧ google_place_id d = dict_get "id"%string place.
Proof.
  intros Hparse.
  assert (price_level d = match member "priceLevel"%string place with
                          | Some (JStr s) => assoc s price_level_map
                          | _ => None
                          end
          ∧ provider_payload d = place ∧ last_fetched_at d = now
          ∧ google_place_id d = dict_get "id"%string place) as (Hpl & Hp & Hl & Hg).
  { revert Hparse.
    unfold parse_google_place, dict_get_default, dict_get, py_get, price_level_map_get.
    destruct (member "location"%string place) as [[|lb|lq|ls|ll|loc]|]; simpl; try done;
      destruct (member "priceLevel"%string place) as [[|b|q|s|[|x l]|[|x o]]|]; simpl;
      try destruct b; try destruct (negb (Qnum q =? 0));
      try (destruct (decide (s = ""%string)) as [->|Hs];
           [|rewrite (bool_decide_eq_false_2 _ Hs)]); simpl;
      try done; by intros [= <-]. }
  assert (∀ n, price_level d = Some n ↔
               ∃ s, member "priceLevel"%string place = Some (JStr s)
                    ∧ assoc s price_level_map = Some n) as Hiff.
  { intros n. rewrite Hpl.
    destruct (member "priceLevel"%string place) as [[|b|q|s|l|o]|]; naive_solver. }
  split_and!; try done.
  - intros n (s & _ & Hs)%Hiff. by apply price_level_map_tiers in Hs as [? _].
  - rewrite Hiff. split.
    + intros (s & Hm & Hs). apply price_level_map_tiers in Hs as [_ [Hs _]].
      by rewrite Hm, (Hs eq_refl).
    + intros Hm. by exists "PRICE_LEVEL_FREE"%string.
Qed.

End PayloadMore.

(** * Instances of the further properties *)

Section MoreInstances1.
Import CacheKey.

(** C7 on two latitudes with the same first three decimals, both below half a
    thousandth beyond them, and two orders of the categories. *)
Lemma cache_key_same_decimals_any_order_witness :
  (first_three_decimals Sample.lat_40_5002 = first_three_decimals Sample.lat_40_5004)
  ∧ (half_side Sample.lat_40_5002 = half_side Sample.lat_40_5004)
  ∧ (first_three_decimals Sample.lng_74_006 = first_three_decimals Sample.lng_74_006)
  ∧ (half_side Sample.lng_74_006 = half_side Sample.lng_74_006)
  ∧ ((["cafe"; "bar"]%string) ≡ₚ (["bar"; "cafe"]%string))
  ∧ (generate_cache_key Sample.lat_40_5002 Sample.lng_74_006 1500 (["cafe"; "bar"]%string) =
      generate_cache_key Sample.lat_40_5004 Sample.lng_74_006 1500 (["bar";
          "cafe"]%string)).
Proof.
  split; [reflexivity|].
  split; [vm_compute; reflexivity|].
  split; [reflexivity|].
  split; [vm_compute; reflexivity|].
  split; [apply perm_swap|].
  apply (cache_key_same_decimals_any_order Sample.lat_40_5002 Sample.lng_74_006
           Sample.lat_40_5004 Sample.lng_74_006 1500 (["cafe"; "bar"]%string)
           (["bar"; "cafe"]%string));
    [reflexivity|vm_compute; reflexivity|reflexivity|vm_compute; reflexivity|apply
        perm_swap].
Defined.

End MoreInstances1.

Section MoreInstances2.


(** X1 on a row written for 900 seconds and read five microseconds later. *)
Lemma postgres_set_get_round_trip_witness :
  (expiry_representable (now Sample.world_up) 900)
  ∧ (cache_session_down (faults Sample.world_up) = false)
  ∧ (cache_session_down no_faults = false)
  ∧ (0 ≤ 5)
  ∧ ((PostgresCache.get Sample.key (later 5 no_faults Sample.provider_up (PostgresCache.set
      Sample.key (["ChIJa"; "ChIJb"]%string) 900 Sample.world_up).2)).1
  = Return (if 5 <? seconds 900 then Some (["ChIJa"; "ChIJb"]%string) else None)).
Proof.
  split; [unfold expiry_representable, seconds; simpl; lia|].
  split; [reflexivity|].
  split; [reflexivity|].
  split; [lia|].
  apply (postgres_set_get_round_trip Sample.key (["ChIJa"; "ChIJb"]%string) 900 5 no_faults
      Sample.provider_up
           Sample.world_up);
    [unfold expiry_representable, seconds; simpl; lia|reflexivity|reflexivity|lia].
Defined.

(** X2 on two writes of one key. *)
Lemma postgres_set_last_writer_wins_witness :
  (expiry_representable (now Sample.world_up) 900)
  ∧ (expiry_representable (now Sample.world_up) 60)
  ∧ (cache_session_down (faults Sample.world_up) = false)
  ∧ (nearby_query_cache (PostgresCache.set Sample.key (["ChIJc"]%string) 60
      (PostgresCache.set Sample.key (["ChIJa"; "ChIJb"]%string) 900 Sample.world_up).2).2
  = nearby_query_cache (PostgresCache.set Sample.key (["ChIJc"]%string) 60
      Sample.world_up).2
  ∧ nearby_query_cache (PostgresCache.set Sample.key (["ChIJa"; "ChIJb"]%string) 900
      Sample.world_up).2 !! Sample.key
    = Some (CacheRow (["ChIJa"; "ChIJb"]%string) (now Sample.world_up + seconds 900))
  ∧ (∀ key', key' ≠ Sample.key →
       nearby_query_cache (PostgresCache.set Sample.key (["ChIJa"; "ChIJb"]%string) 900
           Sample.world_up).2 !! key'
       = nearby_query_cache Sample.world_up !! key')).
Proof.
  split; [unfold expiry_representable, seconds; simpl; lia|].
  split; [unfold expiry_representable, seconds; simpl; lia|].
  split; [reflexivity|].
  apply (postgres_set_last_writer_wins Sample.key (["ChIJa"; "ChIJb"]%string)
           (["ChIJc"]%string) 900 60 Sample.world_up);
    [unfold expiry_representable, seconds; simpl; lia|unfold expiry_representable, seconds;
        simpl; lia|reflexivity].
Defined.

(** X3 on a table that holds the key. *)
Lemma postgres_delete_reports_row_witness :
  (cache_session_down (faults Sample.cached) = false)
  ∧ ((PostgresCache.delete Sample.key Sample.cached).1
  = Return (bool_decide (is_Some (nearby_query_cache Sample.cached !! Sample.key)))
  ∧ nearby_query_cache (PostgresCache.delete Sample.key Sample.cached).2 !! Sample.key =
      None
  ∧ (∀ f api dt, cache_session_down f = false →
       (PostgresCache.get Sample.key (later dt f api (PostgresCache.delete Sample.key
           Sample.cached).2)).1
       = Return None)
  ∧ (∀ key', key' ≠ Sample.key →
       nearby_query_cache (PostgresCache.delete Sample.key Sample.cached).2 !! key'
       = nearby_query_cache Sample.cached !! key')).
Proof.
  split; [reflexivity|].
  apply (postgres_delete_reports_row Sample.key Sample.cached). reflexivity.
Defined.

(** X4 on a table whose only row has expired. *)
Lemma postgres_cleanup_removes_only_expired_witness :
  (cache_session_down (faults Sample.cache_expired) = false)
  ∧ ((PostgresCache.cleanup_expired Sample.cache_expired).1
  = Return (Z.of_nat (size (filter (λ kv, ¬ now Sample.cache_expired < expires_at kv.2)
                              (nearby_query_cache Sample.cache_expired))))
  ∧ (∀ key row,
       nearby_query_cache (PostgresCache.cleanup_expired Sample.cache_expired).2 !! key =
           Some row
       ↔ nearby_query_cache Sample.cache_expired !! key = Some row ∧ now
           Sample.cache_expired < expires_at row)
  ∧ (∀ key, (PostgresCache.get key (PostgresCache.cleanup_expired Sample.cache_expired).2).1
            = (PostgresCache.get key Sample.cache_expired).1)
  ∧ (PostgresCache.cleanup_expired (PostgresCache.cleanup_expired Sample.cache_expired).2).1
      = Return 0).
Proof.
  split; [reflexivity|].
  apply (postgres_cleanup_removes_only_expired Sample.cache_expired). reflexivity.
Defined.

End MoreInstances2.

Section MoreInstances3.
Import GooglePlaces.

(** X5 on a request for two types. *)
Lemma search_nearby_request_groups_witness :
  (search_nearby Sample.provider_up Sample.lat_40_7128 Sample.lng_74_006 1500 (Some ["cafe";
      "bar"]%string) 300 = Return ([], {| requests_made := 1; max_requests := 1; raw_places
          := 0; unique_places := 0; truncated := false |}))
  ∧ (requests_made {| requests_made := 1; max_requests := 1; raw_places := 0; unique_places
      := 0; truncated := false |} = Z.of_nat (length (type_groups (Some ["cafe";
          "bar"]%string)))
  ∧ max_requests {| requests_made := 1; max_requests := 1; raw_places := 0; unique_places :=
      0; truncated := false |} = requests_made {| requests_made := 1; max_requests := 1;
          raw_places := 0; unique_places := 0; truncated := false |}
  ∧ match (Some ["cafe"; "bar"]%string) with
    | Some (t :: types) =>
        type_groups (Some ["cafe"; "bar"]%string) = [take 10 (t :: types)]
        ∧ requests_made {| requests_made := 1; max_requests := 1; raw_places := 0;
            unique_places := 0; truncated := false |} = 1
        ∧ (length (take 10 (t :: types)) ≤ 10)%nat
    | _ => type_groups (Some ["cafe"; "bar"]%string) = DEFAULT_TYPE_GROUPS ∧ requests_made
        {| requests_made := 1; max_requests := 1; raw_places := 0; unique_places := 0;
            truncated := false |} = 15
    end).
Proof.
  split; [reflexivity|].
  apply (search_nearby_request_groups Sample.provider_up Sample.lat_40_7128
      Sample.lng_74_006
           1500 (Some ["cafe"; "bar"]%string) 300 []
           {| requests_made := 1; max_requests := 1; raw_places := 0; unique_places := 0;
               truncated := false |}). reflexivity.
Defined.

(** X6 on three groups and a bound of one record. *)
Lemma search_counts_witness :
  (fan_out (transport_of <$> Sample.replies) 1 = Return ([Sample.pa], {| requests_made := 3;
      max_requests := 3; raw_places := 3; unique_places := 2; truncated := true |}))
  ∧ (0 ≤ unique_places {| requests_made := 3; max_requests := 3; raw_places := 3;
      unique_places := 2; truncated := true |} ≤ raw_places {| requests_made := 3;
          max_requests := 3; raw_places := 3; unique_places := 2; truncated := true |}
  ∧ Z.of_nat (length [Sample.pa]) ≤ unique_places {| requests_made := 3; max_requests := 3;
      raw_places := 3; unique_places := 2; truncated := true |}
  ∧ (truncated {| requests_made := 3; max_requests := 3; raw_places := 3; unique_places :=
      2; truncated := true |} = false → Z.of_nat (length [Sample.pa]) = unique_places {|
          requests_made := 3; max_requests := 3; raw_places := 3; unique_places := 2;
              truncated := true |})
  ∧ (0 ≤ 1 →
     Z.of_nat (length [Sample.pa]) = Z.min (unique_places {| requests_made := 3;
         max_requests := 3; raw_places := 3; unique_places := 2; truncated := true |}) 1
     ∧ (truncated {| requests_made := 3; max_requests := 3; raw_places := 3; unique_places
         := 2; truncated := true |} = true ↔ 1 < unique_places {| requests_made := 3;
             max_requests := 3; raw_places := 3; unique_places := 2; truncated := true
                 |}))).
Proof.
  split; [reflexivity|].
  apply (search_counts (transport_of <$> Sample.replies) 1 [Sample.pa]
           {| requests_made := 3; max_requests := 3; raw_places := 3; unique_places := 2;
               truncated := true |}). reflexivity.
Defined.

End MoreInstances3.

Section MoreInstances4.

(** X8 on a table of two rows and data for the same two places. *)
Lemma upsert_keeps_place_ids_unique_witness :
  (NoDup (google_place_id <$> restaurants Sample.stored))
  ∧ (NoDup (google_place_id <$> restaurants (Db.upsert_restaurants Sample.data_again
      Sample.stored).2)
  ∧ nearby_query_cache (Db.upsert_restaurants Sample.data_again Sample.stored).2 =
      nearby_query_cache Sample.stored
  ∧ redis_keys (Db.upsert_restaurants Sample.data_again Sample.stored).2 = redis_keys
      Sample.stored
  ∧ (∀ e, (Db.upsert_restaurants Sample.data_again Sample.stored).1 = Raise e →
       e = DBAPIError ∧ restaurants (Db.upsert_restaurants Sample.data_again
           Sample.stored).2 = restaurants Sample.stored)
  ∧ (∀ rows, (Db.upsert_restaurants Sample.data_again Sample.stored).1 = Return rows →
       Some <$> (google_place_id <$> rows) = Db.d_google_place_id <$> Sample.data_again
       ∧ google_place_id <$> restaurants (Db.upsert_restaurants Sample.data_again
           Sample.stored).2
         ≡ₚ (google_place_id <$> restaurants Sample.stored)
            ++ filter (λ g, g ∉ google_place_id <$> restaurants Sample.stored)
                (google_place_id <$> rows)
       ∧ filter (λ r, google_place_id r ∉ google_place_id <$> rows)
           (restaurants (Db.upsert_restaurants Sample.data_again Sample.stored).2)
         ≡ₚ filter (λ r, google_place_id r ∉ google_place_id <$> rows) (restaurants
             Sample.stored))).
Proof.
  split; [refine (bool_decide_unpack _ _); vm_compute; exact I|].
  apply (upsert_keeps_place_ids_unique Sample.data_again Sample.stored). refine
      (bool_decide_unpack _ _); vm_compute; exact I.
Defined.

(** X9 on two records upserted into the empty table. *)
Lemma upsert_updates_or_inserts_witness :
  (Db.upsert_restaurants Sample.data Sample.world_up = (Return Sample.rows, Sample.stored))
  ∧ (NoDup (google_place_id <$> restaurants Sample.world_up))
  ∧ (Forall2 (λ d x, upserted (now Sample.world_up) (restaurants Sample.world_up) d x ∧ x ∈
      restaurants Sample.stored) Sample.data Sample.rows).
Proof.
  split; [reflexivity|].
  split; [refine (bool_decide_unpack _ _); vm_compute; exact I|].
  apply (upsert_updates_or_inserts Sample.data Sample.world_up Sample.rows Sample.stored);
    [reflexivity|refine (bool_decide_unpack _ _); vm_compute; exact I].
Defined.

(** X10 on the same upsert, read five microseconds later. *)
Lemma upsert_then_lookup_round_trip_witness :
  (Db.upsert_restaurants Sample.data Sample.world_up = (Return Sample.rows, Sample.stored))
  ∧ (NoDup (google_place_id <$> restaurants Sample.world_up))
  ∧ (select_down no_faults = false)
  ∧ (∃ found,
    (Db.get_restaurants_by_place_ids (google_place_id <$> Sample.rows) (later 5 no_faults
        Sample.provider_up Sample.stored)).1
    = Return found
    ∧ found ≡ₚ Sample.rows).
Proof.
  split; [reflexivity|].
  split; [refine (bool_decide_unpack _ _); vm_compute; exact I|].
  split; [reflexivity|].
  apply (upsert_then_lookup_round_trip Sample.data Sample.world_up Sample.rows Sample.stored
      5
           no_faults Sample.provider_up);
    [reflexivity|refine (bool_decide_unpack _ _); vm_compute; exact I|reflexivity].
Defined.

(** X11 on the same places fetched and upserted again. *)
Lemma upsert_again_keeps_identity_witness :
  (Db.upsert_restaurants Sample.data Sample.world_up = (Return Sample.rows, Sample.stored))
  ∧ (NoDup (google_place_id <$> restaurants Sample.world_up))
  ∧ (Db.d_google_place_id <$> Sample.data_again = Db.d_google_place_id <$> Sample.data)
  ∧ (upsert_down no_faults = false)
  ∧ (∃ rows' w2,
    Db.upsert_restaurants Sample.data_again (later 5 no_faults Sample.provider_up
        Sample.stored) = (Return rows', w2)
    ∧ google_place_id <$> restaurants w2 = google_place_id <$> restaurants Sample.stored
    ∧ id <$> rows' = id <$> Sample.rows
    ∧ created_at <$> rows' = created_at <$> Sample.rows
    ∧ google_place_id <$> rows' = google_place_id <$> Sample.rows
    ∧ provider_payload <$> rows' = Db.d_provider_payload <$> Sample.data_again
    ∧ last_fetched_at <$> rows' = Db.d_last_fetched_at <$> Sample.data_again).
Proof.
  split; [reflexivity|].
  split; [refine (bool_decide_unpack _ _); vm_compute; exact I|].
  split; [reflexivity|].
  split; [reflexivity|].
  apply (upsert_again_keeps_identity Sample.data Sample.data_again Sample.world_up
      Sample.rows
           Sample.stored 5 no_faults Sample.provider_up);
    [reflexivity|refine (bool_decide_unpack _ _); vm_compute; exact
        I|reflexivity|reflexivity].
Defined.

(** X12 on a stored id and an unknown one, with a window of thirty days. *)
Lemma stale_ids_have_no_fresh_row_witness :
  (select_down (faults Sample.stored) = false)
  ∧ (Db.cutoff_representable (now Sample.stored) 30)
  ∧ (∃ stale,
    (Db.get_stale_restaurants (["ChIJa"; "ChIJz"]%string) 30 Sample.stored).1 = Return stale
    ∧ stale
      = filter (λ pid, Forall (λ r, google_place_id r = pid →
                                    last_fetched_at r ≤ now Sample.stored - Db.days 30)
                         (restaurants Sample.stored))
          (["ChIJa"; "ChIJz"]%string)
    ∧ (∀ pid, pid ∈ stale ↔
         pid ∈ (["ChIJa"; "ChIJz"]%string)
         ∧ ∀ r, r ∈ restaurants Sample.stored → google_place_id r = pid →
                last_fetched_at r ≤ now Sample.stored - Db.days 30)
    ∧ (∀ pid, pid ∈ (["ChIJa"; "ChIJz"]%string) → (pid ∉ google_place_id <$> restaurants
        Sample.stored) → pid ∈ stale)
    ∧ restaurants (Db.get_stale_restaurants (["ChIJa"; "ChIJz"]%string) 30 Sample.stored).2
        = restaurants Sample.stored).
Proof.
  split; [reflexivity|].
  split; [unfold Db.cutoff_representable, Db.days, seconds; simpl; lia|].
  apply (stale_ids_have_no_fresh_row (["ChIJa"; "ChIJz"]%string) 30 Sample.stored);
    [reflexivity|unfold Db.cutoff_representable, Db.days, seconds; simpl; lia].
Defined.

(** X13 on the two stored rows, five microseconds after the upsert. *)
Lemma upserted_rows_are_fresh_until_max_age_witness :
  (Db.upsert_restaurants Sample.data Sample.world_up = (Return Sample.rows, Sample.stored))
  ∧ (NoDup (google_place_id <$> restaurants Sample.world_up))
  ∧ (Forall (λ d, Db.d_last_fetched_at d = now Sample.world_up) Sample.data)
  ∧ (select_down no_faults = false)
  ∧ (Db.cutoff_representable (now Sample.world_up + 5) 30)
  ∧ ((Db.get_stale_restaurants (google_place_id <$> Sample.rows) 30
     (later 5 no_faults Sample.provider_up Sample.stored)).1
  = Return (if 5 <? Db.days 30 then [] else google_place_id <$> Sample.rows)).
Proof.
  split; [reflexivity|].
  split; [refine (bool_decide_unpack _ _); vm_compute; exact I|].
  split; [repeat constructor|].
  split; [reflexivity|].
  split; [unfold Db.cutoff_representable, Db.days, seconds; simpl; lia|].
  apply (upserted_rows_are_fresh_until_max_age Sample.data Sample.world_up Sample.rows
           Sample.stored 5 30 no_faults Sample.provider_up);
    [reflexivity|refine (bool_decide_unpack _ _); vm_compute; exact I|repeat
        constructor|reflexivity|unfold Db.cutoff_representable, Db.days, seconds; simpl;
            lia].
Defined.




(** X17 on the request of the sample. *)
Lemma skip_header_bypasses_cache_read_witness :
  (get_cache Sample.postgres_settings = Return Postgres)
  ∧ ((∃ evs,
     trace (Main.search_nearby_restaurants Sample.postgres_settings Sample.request (Some
         "true"%string) Sample.world_up).2
     = trace Sample.world_up ++ ProviderSearch :: evs
     ∧ (∀ key, CacheGet key ∉ evs) ∧ (∀ ids, Lookup ids ∉ evs))
  ∧ (∀ resp,
       (Main.search_nearby_restaurants Sample.postgres_settings Sample.request (Some
           "true"%string) Sample.world_up).1
       = Return resp →
       Main.cached resp = false)
  ∧ (∀ h, h ≠ Some "true"%string →
       ∃ evs, trace (Main.search_nearby_restaurants Sample.postgres_settings Sample.request
           h Sample.world_up).2
              = trace Sample.world_up ++ CacheGet (key_of Sample.request) :: evs)).
Proof.
  split; [reflexivity|].
  apply (skip_header_bypasses_cache_read Sample.postgres_settings Postgres Sample.request
      Sample.world_up). reflexivity.
Defined.

(** X18 with every service down. *)
Lemma postgres_cache_read_failure_fails_request_witness :
  (get_cache Sample.postgres_settings = Return Postgres)
  ∧ (None ≠ Some "true"%string)
  ∧ (cache_session_down (faults Sample.world_all_down) = true)
  ∧ (Main.search_nearby_restaurants Sample.postgres_settings Sample.request None
      Sample.world_all_down
  = (Raise DBAPIError, add_event (CacheGet (key_of Sample.request)) Sample.world_all_down)
  ∧ Main.http_status (Main.search_nearby_restaurants Sample.postgres_settings Sample.request
      None Sample.world_all_down).1
    = 500
  ∧ trace (Main.search_nearby_restaurants Sample.postgres_settings Sample.request None
      Sample.world_all_down).2
    = trace Sample.world_all_down ++ [CacheGet (key_of Sample.request)]).
Proof.
  split; [reflexivity|].
  split; [discriminate|].
  split; [reflexivity|].
  apply (postgres_cache_read_failure_fails_request Sample.postgres_settings Sample.request
      None
           Sample.world_all_down);
    [reflexivity|discriminate|reflexivity].
Defined.



End MoreInstances4.

Section MoreInstances5.
Import Payload.

(** X25 on a place of the moderate tier. *)
Lemma parsed_price_level_is_a_tier_witness :
  (parse_google_place 0 Sample.payload = Return Sample.parsed)
  ∧ ((∀ n, price_level Sample.parsed = Some n ↔
        ∃ s, member "priceLevel"%string Sample.payload = Some (JStr s)
             ∧ assoc s price_level_map = Some n)
  ∧ (∀ n, price_level Sample.parsed = Some n → 0 ≤ n ≤ 4)
  ∧ (price_level Sample.parsed = Some 0
     ↔ member "priceLevel"%string Sample.payload = Some (JStr "PRICE_LEVEL_FREE"%string))
  ∧ provider_payload Sample.parsed = Sample.payload
  ∧ last_fetched_at Sample.parsed = 0
  ∧ google_place_id Sample.parsed = dict_get "id"%string Sample.payload).
Proof.
  split; [reflexivity|].
  apply (parsed_price_level_is_a_tier 0 Sample.payload Sample.parsed). reflexivity.
Defined.

End MoreInstances5.

Section MoreInstances6.

(** X28 on the request of the sample, made on the table of two rows. *)
Lemma search_endpoint_keeps_place_ids_unique_witness :
  (NoDup (google_place_id <$> restaurants Sample.stored))
  ∧ (NoDup (google_place_id <$>
           restaurants (Main.search_nearby_restaurants Sample.postgres_settings
               Sample.request (Some "true"%string) Sample.stored).2)).
Proof.
  split; [refine (bool_decide_unpack _ _); vm_compute; exact I|].
  apply (search_endpoint_keeps_place_ids_unique Sample.postgres_settings Sample.request
           (Some "true"%string) Sample.stored). refine (bool_decide_unpack _ _); vm_compute;
               exact I.
Defined.

End MoreInstances6.
